(** * Horizon schedule and example OCPs of the C/GMRES benchmark

    A shallow embedding of [cgmres::Horizon] (horizon.hpp), of
    [cgmres::OCP_cartpoleExternalReference] and of [cgmres::OCP_hexacopter]
    (the two ocp.hpp files), with the properties of the design document
    that concern them.

    [Scalar] (a C++ [double]) is idealised as a real number: the formulas
    of the document ([exp], [sqrt], order) are statements about reals.
    Where a NaN decides (the guard of the [Horizon] constructor) the
    doubles themselves are used.
    Raw [double*] arguments are addresses into a flat memory of scalars,
    so that two arguments of one call may overlap, as in C++; for the
    purity of the evaluators the object lies in that memory too, since
    its member arrays are public. *)

From Stdlib Require Import Reals Lra Lia ZArith List String Bool DecimalString.
From Stdlib Require Floats.
Import ListNotations.

Open Scope R_scope.

Definition Scalar := R.

(** Exceptions thrown by the code under study: only [std::invalid_argument]
    occurs, with its message. *)
Inductive exn : Type :=
| invalid_argument (what : string).

(** [a <= b] and [a < b] on scalars, as the booleans a C++ condition yields. *)
Definition Rleb (a b : R) : bool := if Rle_dec a b then true else false.
Definition Rltb (a b : R) : bool := if Rlt_dec a b then true else false.

(** ** horizon.hpp *)

Module Horizon.

(** The private members of [class Horizon]. *)
Record Horizon : Type := mkHorizon {
  Tf_ : Scalar;
  alpha_ : Scalar;
  t0_ : Scalar;
  time_varying_length_ : bool
}.

(** [Horizon(const Scalar Tf, const Scalar alpha=0.0, const Scalar t0=0.0)]:
    the members are initialised, then [Tf <= 0.0] throws, then the flag is
    set.  A throwing constructor yields no object. *)
Definition ctor (Tf alpha t0 : Scalar) : exn + Horizon :=
  if Rleb Tf 0
  then inl (invalid_argument "[Horizon]: 'Tf' must be positive!")
  else inr {| Tf_ := Tf; alpha_ := alpha; t0_ := t0;
              time_varying_length_ := Rltb 0 alpha |}.

(** The two shorter call forms given by the default arguments. *)
Definition ctor2 (Tf alpha : Scalar) : exn + Horizon := ctor Tf alpha 0.
Definition ctor1 (Tf : Scalar) : exn + Horizon := ctor Tf 0 0.

(** [Horizon() = default;] runs no code: the members keep what the storage
    of the object holds.  Under value-initialisation ([Horizon()],
    [Horizon{}]) that storage is zero-filled first, since the defaulted
    constructor is not user-provided. *)
Definition default_ctor (storage : Horizon) : Horizon := storage.

Definition zero_storage : Horizon :=
  {| Tf_ := 0; alpha_ := 0; t0_ := 0; time_varying_length_ := false |}.

Definition value_init : Horizon := default_ctor zero_storage.

(** [Scalar T(const Scalar t) const].  The body opens its time-varying
    branch with [assert(t >= t0)]; [t0] is not a name in scope there (the
    member is [t0_]), so the header only builds with [NDEBUG], where the
    macro expands to nothing.  [T] is that build. *)
Definition T (h : Horizon) (t : Scalar) : Scalar :=
  if time_varying_length_ h
  then Tf_ h * (1 - exp (- alpha_ h * (t - t0_ h)))
  else Tf_ h.

(** The same body with the assertion read against the member [t0_] and
    enabled: a failed assertion aborts the program. *)
Definition T_assert (h : Horizon) (t : Scalar) : option Scalar :=
  if time_varying_length_ h
  then if Rleb (t0_ h) t
       then Some (Tf_ h * (1 - exp (- alpha_ h * (t - t0_ h))))
       else None
  else Some (Tf_ h).

(** [void reset(const Scalar t0)]. *)
Definition reset (h : Horizon) (t0 : Scalar) : Horizon :=
  {| Tf_ := Tf_ h; alpha_ := alpha_ h; t0_ := t0;
     time_varying_length_ := time_varying_length_ h |}.

(** The instances a program can hold: built by either constructor, then
    subjected to any number of [reset] calls ([T] is [const]). *)
Inductive obtainable : Horizon -> Prop :=
| ob_ctor Tf alpha t0 h : ctor Tf alpha t0 = inr h -> obtainable h
| ob_default storage : obtainable (default_ctor storage)
| ob_reset h t0 : obtainable h -> obtainable (reset h t0).

(** The instances that come from the checking constructor only. *)
Inductive checked : Horizon -> Prop :=
| ck_ctor Tf alpha t0 h : ctor Tf alpha t0 = inr h -> checked h
| ck_reset h t0 : checked h -> checked (reset h t0).

End Horizon.

(** ** horizon.hpp, the members as binary64 doubles *)

(** What the constructor lets through is decided by the comparisons of
    IEEE doubles, for which a NaN is neither [<= 0] nor [> 0].  This
    module models the construction and [reset] on the doubles themselves
    ([T], which is [const], needs [exp] and stays with the reals above). *)
Module Horizon64.

Definition double := PrimFloat.float.

(** [a <= b], [a > b] and [std::isnan] on doubles. *)
Definition le (a b : double) : bool := PrimFloat.leb a b.
Definition gt (a b : double) : bool := PrimFloat.ltb b a.
Definition isnan (a : double) : bool := PrimFloat.is_nan a.

Record Horizon : Type := mkHorizon {
  Tf_ : double;
  alpha_ : double;
  t0_ : double;
  time_varying_length_ : bool
}.

(** [Horizon(const Scalar Tf, const Scalar alpha=0.0, const Scalar t0=0.0)]. *)
Definition ctor (Tf alpha t0 : double) : exn + Horizon :=
  if le Tf PrimFloat.zero
  then inl (invalid_argument "[Horizon]: 'Tf' must be positive!")
  else inr {| Tf_ := Tf; alpha_ := alpha; t0_ := t0;
              time_varying_length_ := gt alpha PrimFloat.zero |}.

(** [Horizon() = default;], and the zero-filled storage of a
    value-initialisation. *)
Definition default_ctor (storage : Horizon) : Horizon := storage.

Definition zero_storage : Horizon :=
  {| Tf_ := PrimFloat.zero; alpha_ := PrimFloat.zero; t0_ := PrimFloat.zero;
     time_varying_length_ := false |}.

Definition value_init : Horizon := default_ctor zero_storage.

(** [void reset(const Scalar t0)]. *)
Definition reset (h : Horizon) (t0 : double) : Horizon :=
  {| Tf_ := Tf_ h; alpha_ := alpha_ h; t0_ := t0;
     time_varying_length_ := time_varying_length_ h |}.

(** The instances a program can hold, and those that come from the
    checking constructor only. *)
Inductive obtainable : Horizon -> Prop :=
| ob_ctor Tf alpha t0 h : ctor Tf alpha t0 = inr h -> obtainable h
| ob_default storage : obtainable (default_ctor storage)
| ob_reset h t0 : obtainable h -> obtainable (reset h t0).

Inductive checked : Horizon -> Prop :=
| ck_ctor Tf alpha t0 h : ctor Tf alpha t0 = inr h -> checked h
| ck_reset h t0 : checked h -> checked (reset h t0).

End Horizon64.

(** ** Memory, fixed-size arrays and method state *)

(** A [double*] is an address; [p[i]] is the cell [p + i].  Nothing keeps
    two pointer arguments of one call apart. *)
Definition ptr := Z.
Bind Scope Z_scope with ptr.
Definition mem := Z -> Scalar.

Definition load (m : mem) (p : ptr) (i : Z) : Scalar := m (p + i)%Z.

Definition store (m : mem) (p : ptr) (i : Z) (v : Scalar) : mem :=
  fun a => if Z.eqb a (p + i) then v else m a.

(** [std::array<double, n>]: exactly [n] scalars. *)
Fixpoint std_array (n : nat) : Type :=
  match n with
  | O => unit
  | S k => (Scalar * std_array k)%type
  end.

Fixpoint get {n : nat} : std_array n -> nat -> Scalar :=
  match n with
  | O => fun _ _ => 0
  | S k => fun a i =>
      match i with
      | O => fst a
      | S j => get (snd a) j
      end
  end.

Fixpoint set {n : nat} : std_array n -> nat -> Scalar -> std_array n :=
  match n with
  | O => fun a _ _ => a
  | S k => fun a i v =>
      match i with
      | O => (v, snd a)
      | S j => (fst a, set (snd a) j v)
      end
  end.

(** What a member function works on: the object [*this], by the values of
    its members, and the memory its pointer arguments (and shared
    pointers) refer to.  The object is held apart from that memory: a call
    whose output pointer points into the object is outside this view, and
    is treated in [CartpoleObject] and [HexacopterObject] below, where the
    object lies in the memory. *)
Record state (O : Type) : Type := mkState {
  self : O;
  heap : mem
}.
Arguments mkState {O} _ _.
Arguments self {O} _.
Arguments heap {O} _.

(** An assignment [out[i] = e;] of a generated evaluator: the index and the
    right-hand side, which reads the memory as it is when the statement
    runs.  A body is run statement by statement. *)
Definition assign : Type := (Z * (mem -> Scalar))%type.

Definition exec1 (out : ptr) (m : mem) (a : assign) : mem :=
  store m out (fst a) (snd a m).

Definition exec (out : ptr) (body : list assign) (m : mem) : mem :=
  fold_left (exec1 out) body m.

(** How a call ends: normally, or by an exception, with the state reached
    at that point. *)
Inductive outcome (S : Type) : Type :=
| Normal (s : S)
| Thrown (e : exn) (s : S).
Arguments Normal {S} _.
Arguments Thrown {S} _ _.

(** [std::to_string] on an [int]. *)
Definition to_string (z : Z) : string := NilZero.string_of_int (Z.to_int z).

(** An Eigen vector argument: its buffer [data()] and its [size()]. *)
Record Vec : Type := mkVec {
  data : ptr;
  size : Z
}.

(** ** cartpole_external_reference/ocp.hpp *)

Module Cartpole.

Definition nx : Z := 4.
Definition nu : Z := 1.
Definition nc : Z := 0.
Definition nh : Z := 0.
Definition nuc : Z := nu + nc.
Definition nub : nat := 1.
Definition ubound_indices : list Z := [0%Z].

(** The data members of [OCP_cartpoleExternalReference].  The
    [std::shared_ptr<ExternalReference>] is null or the address of the
    shared [ExternalReference], whose only member [cart_position] sits at
    offset 0. *)
Record OCP : Type := mkOCP {
  m_c : Scalar;
  m_p : Scalar;
  l : Scalar;
  g : Scalar;
  q : std_array 4;
  q_terminal : std_array 4;
  x_ref : std_array 4;
  r : std_array 1;
  umin : std_array nub;
  umax : std_array nub;
  dummy_weight : std_array nub;
  external_reference : option ptr
}.

(** The default member initialisers. *)
Definition init : OCP :=
  {| m_c := 2; m_p := 0.2; l := 0.5; g := 9.80665;
     q := (2.5, (10, (0.01, (0.01, tt))));
     q_terminal := (2.5, (10, (0.01, (0.01, tt))));
     x_ref := (0, (PI, (0, (0, tt))));
     r := (1, tt);
     umin := (-15.0, tt);
     umax := (15.0, tt);
     dummy_weight := (0.1, tt);
     external_reference := None |}.

Definition with_x_ref (o : OCP) (a : std_array 4) : OCP :=
  {| m_c := m_c o; m_p := m_p o; l := l o; g := g o;
     q := q o; q_terminal := q_terminal o; x_ref := a; r := r o;
     umin := umin o; umax := umax o; dummy_weight := dummy_weight o;
     external_reference := external_reference o |}.

(** A user attaching a reference: [ocp.external_reference = p]. *)
Definition attach (o : OCP) (p : ptr) : OCP :=
  {| m_c := m_c o; m_p := m_p o; l := l o; g := g o;
     q := q o; q_terminal := q_terminal o; x_ref := x_ref o; r := r o;
     umin := umin o; umax := umax o; dummy_weight := dummy_weight o;
     external_reference := Some p |}.

(** [void synchronize()]. *)
Definition synchronize (s : state OCP) : state OCP :=
  match external_reference (self s) with
  | Some p =>
      mkState (with_x_ref (self s) (set (x_ref (self s)) 0 (load (heap s) p 0)))
              (heap s)
  | None => s
  end.

(** [void eval_f(t, x, u, dx) const]. *)
Definition eval_f_body (o : OCP) (t : Scalar) (x u : ptr) (m0 : mem)
  : list assign :=
  let x0 := sin (load m0 x 1) in
  let x1 := 1 / (m_c o + m_p o * x0 ^ 2) in
  let x2 := cos (load m0 x 1) in
  let x3 := l o * (load m0 x 1) ^ 2 in
  let x4 := m_p o * x0 in
  [ (0%Z, fun m => load m x 2);
    (1%Z, fun m => load m x 3);
    (2%Z, fun m => x1 * (load m u 0 + x4 * (g o * x2 + x3)));
    (3%Z, fun m => x1 * (- g o * x0 * (m_c o + m_p o) - load m u 0 * x2
                        - x2 * x3 * x4) / l o) ].

Definition eval_f (t : Scalar) (x u dx : ptr) (s : state OCP) : state OCP :=
  mkState (self s) (exec dx (eval_f_body (self s) t x u (heap s)) (heap s)).

(** [void eval_phix(t, x, phix) const]. *)
Definition eval_phix_body (o : OCP) (t : Scalar) (x : ptr) (m0 : mem)
  : list assign :=
  [ (0%Z, fun m => (1 / 2) * get (q_terminal o) 0
                   * (2 * load m x 0 - 2 * get (x_ref o) 0));
    (1%Z, fun m => (1 / 2) * get (q_terminal o) 1
                   * (2 * load m x 1 - 2 * get (x_ref o) 1));
    (2%Z, fun m => (1 / 2) * get (q_terminal o) 2
                   * (2 * load m x 2 - 2 * get (x_ref o) 2));
    (3%Z, fun m => (1 / 2) * get (q_terminal o) 3
                   * (2 * load m x 3 - 2 * get (x_ref o) 3)) ].

Definition eval_phix (t : Scalar) (x phix : ptr) (s : state OCP)
  : state OCP :=
  mkState (self s) (exec phix (eval_phix_body (self s) t x (heap s)) (heap s)).

(** [void eval_hx(t, x, u, lmd, hx) const]. *)
Definition eval_hx_body (o : OCP) (t : Scalar) (x u lmd : ptr) (m0 : mem)
  : list assign :=
  let x0 := 2 * load m0 x 1 in
  let x1 := sin (load m0 x 1) in
  let x2 := cos (load m0 x 1) in
  let x3 := g o * x2 in
  let x4 := (load m0 x 1) ^ 2 in
  let x5 := l o * x4 in
  let x6 := m_p o * (x3 + x5) in
  let x7 := x1 ^ 2 in
  let x8 := m_c o + m_p o * x7 in
  let x9 := m_p o * x1 in
  let x10 := x2 * x9 in
  let x11 := 2 * x10 / x8 ^ 2 in
  let x12 := 1 / x8 in
  let x13 := g o * x1 in
  let x14 := m_c o + m_p o in
  let x15 := load m0 lmd 3 / l o in
  [ (0%Z, fun m => (1 / 2) * get (q o) 0
                   * (2 * load m x 0 - 2 * get (x_ref o) 0));
    (1%Z, fun m =>
       - load m lmd 2 * x11 * (load m u 0 + x1 * x6)
       + load m lmd 2 * x12 * (x2 * x6 + x9 * (2 * l o * load m x 1 - x13))
       + (1 / 2) * get (q o) 1 * (x0 - 2 * get (x_ref o) 1)
       - x11 * x15 * (- load m u 0 * x2 - x10 * x5 - x13 * x14)
       + x12 * x15 * (l o * m_p o * x4 * x7 - l o * x0 * x10
                      - m_p o * x2 ^ 2 * x5 + load m u 0 * x1 - x14 * x3));
    (2%Z, fun m => load m lmd 0
                   + (1 / 2) * get (q o) 2
                     * (2 * load m x 2 - 2 * get (x_ref o) 2));
    (3%Z, fun m => load m lmd 1
                   + (1 / 2) * get (q o) 3
                     * (2 * load m x 3 - 2 * get (x_ref o) 3)) ].

Definition eval_hx (t : Scalar) (x u lmd hx : ptr) (s : state OCP)
  : state OCP :=
  mkState (self s)
          (exec hx (eval_hx_body (self s) t x u lmd (heap s)) (heap s)).

(** [void eval_hu(t, x, u, lmd, hu) const]. *)
Definition eval_hu_body (o : OCP) (t : Scalar) (x u lmd : ptr) (m0 : mem)
  : list assign :=
  let x0 := 1 / (m_c o + m_p o * (sin (load m0 x 1)) ^ 2) in
  [ (0%Z, fun m => load m lmd 2 * x0 + get (r o) 0 * load m u 0
                   - load m lmd 3 * x0 * cos (load m x 1) / l o) ].

Definition eval_hu (t : Scalar) (x u lmd hu : ptr) (s : state OCP)
  : state OCP :=
  mkState (self s)
          (exec hu (eval_hu_body (self s) t x u lmd (heap s)) (heap s)).

End Cartpole.

(** ** hexacopter/ocp.hpp *)

Module Hexacopter.

Definition nx : Z := 12.
Definition nu : Z := 6.
Definition nc : Z := 0.
Definition nh : Z := 0.
Definition nuc : Z := nu + nc.
Definition nub : nat := 6.
Definition ubound_indices : list Z := [0; 1; 2; 3; 4; 5]%Z.

(** The data members of [OCP_hexacopter]. *)
Record OCP : Type := mkOCP {
  m : Scalar;
  l : Scalar;
  k : Scalar;
  Ixx : Scalar;
  Iyy : Scalar;
  Izz : Scalar;
  gamma : Scalar;
  g : Scalar;
  z_ref : Scalar;
  q : std_array 12;
  q_terminal : std_array 12;
  r : std_array 6;
  umin : std_array nub;
  umax : std_array nub;
  dummy_weight : std_array nub
}.

(** The default member initialisers. *)
Definition init : OCP :=
  {| m := 1.44; l := 0.23; k := 1.6e-09;
     Ixx := 0.0348; Iyy := 0.0459; Izz := 0.0977;
     gamma := 0.01; g := 9.80665; z_ref := 5;
     q := (1, (1, (1, (0.01, (0.01, (0, (0.01, (0.01, (0.01,
          (0.1, (0.1, (0.001, tt))))))))))));
     q_terminal := (1, (1, (1, (0.01, (0.01, (0, (0.01, (0.01, (0.01,
          (0.1, (0.1, (0.001, tt))))))))))));
     r := (0.01, (0.01, (0.01, (0.01, (0.01, (0.01, tt))))));
     umin := (0.144, (0.144, (0.144, (0.144, (0.144, (0.144, tt))))));
     umax := (6.0, (6.0, (6.0, (6.0, (6.0, (6.0, tt))))));
     dummy_weight := (0.1, (0.1, (0.1, (0.1, (0.1, (0.1, tt)))))) |}.

(** [void synchronize()]: the body is empty. *)
Definition synchronize (s : state OCP) : state OCP := s.

(** [void eval_f(t, const double* x, const double* u, double* dx) const]. *)
Definition eval_f_body (o : OCP) (t : Scalar) (x u : ptr) (m0 : mem)
  : list assign :=
  let x0 := sin (load m0 x 3) in
  let x1 := sin (load m0 x 5) in
  let x2 := cos (load m0 x 5) in
  let x3 := cos (load m0 x 3) in
  let x4 := sin (load m0 x 4) in
  let x5 := 1 / m o in
  let x6 := load m0 u 0 + load m0 u 2 + load m0 u 4 in
  let x7 := load m0 u 1 + load m0 u 3 + load m0 u 5 + x6 in
  let x8 := x5 * x7 in
  let x9 := 1 / Ixx o in
  let x10 := - Izz o in
  let x11 := (1 / 2) * load m0 u 0 in
  let x12 := 1 / Iyy o in
  let x13 := sqrt 3 in
  let x14 := 1 / Izz o in
  [ (0%Z, fun M => load M x 6);
    (1%Z, fun M => load M x 7);
    (2%Z, fun M => load M x 8);
    (3%Z, fun M => load M x 9);
    (4%Z, fun M => load M x 10);
    (5%Z, fun M => load M x 11);
    (6%Z, fun M => x8 * (x0 * x1 + x2 * x3 * x4));
    (7%Z, fun M => x8 * (- x0 * x2 + x1 * x3 * x4));
    (8%Z, fun M => - g o + x3 * x5 * x7 * cos (load M x 4));
    (9%Z, fun M =>
       l o * x9 * (- load M u 1 - 1 / 2 * load M u 2 + (1 / 2) * load M u 3
                   + load M u 4 + (1 / 2) * load M u 5 - x11)
       + x9 * load M x 10 * load M x 11 * (Iyy o + x10));
    (10%Z, fun M =>
       l o * x12 * ((1 / 2) * load M u 2 * x13 + (1 / 2) * load M u 3 * x13
                    - 1 / 2 * load M u 5 * x13 - x11 * x13)
       + x12 * load M x 11 * load M x 9 * (- Ixx o - x10));
    (11%Z, fun M =>
       x14 * load M x 10 * load M x 9 * (Ixx o - Iyy o)
       + x14 * (- gamma o * load M x 11
                + k o * (load M u 1 + load M u 3 + load M u 5 - x6))) ].

Definition eval_f (t : Scalar) (x u dx : ptr) (s : state OCP) : state OCP :=
  mkState (self s) (exec dx (eval_f_body (self s) t x u (heap s)) (heap s)).

(** [void eval_phix(t, const double* x, double* phix) const]. *)
Definition eval_phix_body (o : OCP) (t : Scalar) (x : ptr) (m0 : mem)
  : list assign :=
  let x0 := 2 * t in
  let x1 := sin x0 in
  let x2 := cos x0 in
  [ (0%Z, fun M => (1 / 2) * get (q_terminal o) 0 * (-2 * x1 + 2 * load M x 0));
    (1%Z, fun M => (1 / 2) * get (q_terminal o) 1
                   * (2 * x2 + 2 * load M x 1 - 2));
    (2%Z, fun M => (1 / 2) * get (q_terminal o) 2
                   * (2 * load M x 2 - 2 * z_ref o - 4 * sin t));
    (3%Z, fun M => get (q_terminal o) 3 * load M x 3);
    (4%Z, fun M => get (q_terminal o) 4 * load M x 4);
    (5%Z, fun M => get (q_terminal o) 5 * load M x 5);
    (6%Z, fun M => (1 / 2) * get (q_terminal o) 6 * (-4 * x2 + 2 * load M x 6));
    (7%Z, fun M => (1 / 2) * get (q_terminal o) 7 * (-4 * x1 + 2 * load M x 7));
    (8%Z, fun M => (1 / 2) * get (q_terminal o) 8
                   * (2 * load M x 8 - 4 * cos t));
    (9%Z, fun M => get (q_terminal o) 9 * load M x 9);
    (10%Z, fun M => get (q_terminal o) 10 * load M x 10);
    (11%Z, fun M => get (q_terminal o) 11 * load M x 11) ].

Definition eval_phix (t : Scalar) (x phix : ptr) (s : state OCP)
  : state OCP :=
  mkState (self s) (exec phix (eval_phix_body (self s) t x (heap s)) (heap s)).

(** [void eval_hx(t, const double* x, const double* u, const double* lmd,
    double* hx) const]. *)
Definition eval_hx_body (o : OCP) (t : Scalar) (x u lmd : ptr) (m0 : mem)
  : list assign :=
  let x0 := 2 * t in
  let x1 := sin x0 in
  let x2 := cos x0 in
  let x3 := sin (load m0 x 3) in
  let x4 := cos (load m0 x 4) in
  let x5 := (load m0 u 0 + load m0 u 1 + load m0 u 2 + load m0 u 3
             + load m0 u 4 + load m0 u 5) / m o in
  let x6 := load m0 lmd 8 * x5 in
  let x7 := sin (load m0 x 5) in
  let x8 := cos (load m0 x 3) in
  let x9 := sin (load m0 x 4) in
  let x10 := cos (load m0 x 5) in
  let x11 := x10 * x3 in
  let x12 := load m0 lmd 6 * x5 in
  let x13 := x10 * x8 in
  let x14 := x3 * x7 in
  let x15 := load m0 lmd 7 * x5 in
  let x16 := x7 * x8 in
  let x17 := - Izz o in
  let x18 := load m0 lmd 10 * (- Ixx o - x17) / Iyy o in
  let x19 := load m0 lmd 11 / Izz o in
  let x20 := x19 * (Ixx o - Iyy o) in
  let x21 := load m0 lmd 9 * (Iyy o + x17) / Ixx o in
  [ (0%Z, fun M => (1 / 2) * get (q o) 0 * (-2 * x1 + 2 * load M x 0));
    (1%Z, fun M => (1 / 2) * get (q o) 1 * (2 * x2 + 2 * load M x 1 - 2));
    (2%Z, fun M => (1 / 2) * get (q o) 2
                   * (2 * load M x 2 - 2 * z_ref o - 4 * sin t));
    (3%Z, fun M => get (q o) 3 * load M x 3 + x12 * (- x11 * x9 + x7 * x8)
                   + x15 * (- x13 - x14 * x9) - x3 * x4 * x6);
    (4%Z, fun M => get (q o) 4 * load M x 4 + x12 * x13 * x4
                   + x15 * x16 * x4 - x6 * x8 * x9);
    (5%Z, fun M => get (q o) 5 * load M x 5 + x12 * (x11 - x16 * x9)
                   + x15 * (x13 * x9 + x14));
    (6%Z, fun M => load M lmd 0
                   + (1 / 2) * get (q o) 6 * (-4 * x2 + 2 * load M x 6));
    (7%Z, fun M => load M lmd 1
                   + (1 / 2) * get (q o) 7 * (-4 * x1 + 2 * load M x 7));
    (8%Z, fun M => load M lmd 2
                   + (1 / 2) * get (q o) 8 * (2 * load M x 8 - 4 * cos t));
    (9%Z, fun M => load M lmd 3 + get (q o) 9 * load M x 9
                   + x18 * load M x 11 + x20 * load M x 10);
    (10%Z, fun M => load M lmd 4 + get (q o) 10 * load M x 10
                    + x20 * load M x 9 + x21 * load M x 11);
    (11%Z, fun M => - gamma o * x19 + load M lmd 5
                    + get (q o) 11 * load M x 11
                    + x18 * load M x 9 + x21 * load M x 10) ].

Definition eval_hx (t : Scalar) (x u lmd hx : ptr) (s : state OCP)
  : state OCP :=
  mkState (self s)
          (exec hx (eval_hx_body (self s) t x u lmd (heap s)) (heap s)).

(** [void eval_hu(t, const double* x, const double* u, const double* lmd,
    double* hu) const]. *)
Definition eval_hu_body (o : OCP) (t : Scalar) (x u lmd : ptr) (m0 : mem)
  : list assign :=
  let x0 := (1 / 3) * g o * m o in
  let x1 := (1 / 2) * sqrt 3 * l o * load m0 lmd 10 / Iyy o in
  let x2 := - x1 in
  let x3 := l o * load m0 lmd 9 / Ixx o in
  let x4 := (1 / 2) * x3 in
  let x5 := k o * load m0 lmd 11 / Izz o in
  let x6 := 1 / m o in
  let x7 := sin (load m0 x 3) in
  let x8 := sin (load m0 x 5) in
  let x9 := cos (load m0 x 5) in
  let x10 := cos (load m0 x 3) in
  let x11 := sin (load m0 x 4) in
  let x12 := load m0 lmd 6 * x6 * (x10 * x11 * x9 + x7 * x8)
             + load m0 lmd 7 * x6 * (x10 * x11 * x8 - x7 * x9)
             + load m0 lmd 8 * x10 * x6 * cos (load m0 x 4) in
  let x13 := x12 - x5 in
  let x14 := x13 - x4 in
  let x15 := x12 + x5 in
  let x16 := x15 + x4 in
  [ (0%Z, fun M => (1 / 2) * get (r o) 0 * (2 * load M u 0 - x0) + x14 + x2);
    (1%Z, fun M => (1 / 2) * get (r o) 1 * (2 * load M u 1 - x0) + x15 - x3);
    (2%Z, fun M => (1 / 2) * get (r o) 2 * (2 * load M u 2 - x0) + x1 + x14);
    (3%Z, fun M => (1 / 2) * get (r o) 3 * (2 * load M u 3 - x0) + x1 + x16);
    (4%Z, fun M => (1 / 2) * get (r o) 4 * (2 * load M u 4 - x0) + x13 + x3);
    (5%Z, fun M => (1 / 2) * get (r o) 5 * (2 * load M u 5 - x0) + x16 + x2) ].

Definition eval_hu (t : Scalar) (x u lmd hu : ptr) (s : state OCP)
  : state OCP :=
  mkState (self s)
          (exec hu (eval_hu_body (self s) t x u lmd (heap s)) (heap s)).

(** The overloads on Eigen vectors, which check [size()] before they hand
    the buffers to the raw-pointer functions above. *)
Module Checked.

Definition must_be (name : string) (n : Z) : exn :=
  invalid_argument
    (String.append "[OCP]: "
       (String.append name (String.append ".size() must be " (to_string n)))).

Definition eval_f (t : Scalar) (x u dx : Vec) (s : state OCP)
  : outcome (state OCP) :=
  if negb (size x =? nx)%Z then Thrown (must_be "x" nx) s
  else if negb (size u =? nu)%Z then Thrown (must_be "u" nu) s
  else if negb (size dx =? nx)%Z then Thrown (must_be "dx" nx) s
  else Normal (eval_f t (data x) (data u) (data dx) s).

Definition eval_phix (t : Scalar) (x phix : Vec) (s : state OCP)
  : outcome (state OCP) :=
  if negb (size x =? nx)%Z then Thrown (must_be "x" nx) s
  else if negb (size phix =? nx)%Z then Thrown (must_be "phix" nx) s
  else Normal (eval_phix t (data x) (data phix) s).

Definition eval_hx (t : Scalar) (x uc lmd hx : Vec) (s : state OCP)
  : outcome (state OCP) :=
  if negb (size x =? nx)%Z then Thrown (must_be "x" nx) s
  else if negb (size uc =? nuc)%Z then Thrown (must_be "uc" nuc) s
  else if negb (size lmd =? nx)%Z then Thrown (must_be "lmd" nx) s
  else if negb (size hx =? nuc)%Z then Thrown (must_be "hx" nx) s
  else Normal (eval_hx t (data x) (data uc) (data lmd) (data hx) s).

Definition eval_hu (t : Scalar) (x uc lmd hu : Vec) (s : state OCP)
  : outcome (state OCP) :=
  if negb (size x =? nx)%Z then Thrown (must_be "x" nx) s
  else if negb (size uc =? nuc)%Z then Thrown (must_be "uc" nuc) s
  else if negb (size lmd =? nx)%Z then Thrown (must_be "lmd" nx) s
  else if negb (size hu =? nuc)%Z then Thrown (must_be "hu" nuc) s
  else Normal (eval_hu t (data x) (data uc) (data lmd) (data hu) s).

End Checked.

End Hexacopter.

(** ** The cart-pole problem as an object in memory *)

(** The evaluators above take the data members as given values.  In C++
    they are read through [this], from the same memory the output pointer
    writes to: an output pointer may point at a public member array.
    Here the object lies at [this] in the memory of scalars, its members
    in the order of their declaration (static members take no room), and
    every member is read where the source reads it: by the temporaries
    when the call starts, by an assignment when it runs. *)

(** The [n] scalars [p[i]], [p[i + 1]], ... as a [std::array]. *)
Fixpoint array_at (n : nat) (M : mem) (p : ptr) (i : Z) : std_array n :=
  match n with
  | O => tt
  | S k => (load M p i, array_at k M p (i + 1))
  end.

Module CartpoleObject.

Import Cartpole.

(** The room the object takes, in scalars: twenty doubles, then the
    [std::shared_ptr] (two pointers). *)
Definition sizeof : Z := 22.

(** The data members of the object at [this].  The [std::shared_ptr],
    which is no scalar and which no evaluator reads, is left out (null). *)
Definition object_at (this : ptr) (M : mem) : OCP :=
  {| m_c := load M this 0; m_p := load M this 1;
     l := load M this 2; g := load M this 3;
     q := array_at 4 M this 4;
     q_terminal := array_at 4 M this 8;
     x_ref := array_at 4 M this 12;
     r := array_at 1 M this 16;
     umin := array_at nub M this 17;
     umax := array_at nub M this 18;
     dummy_weight := array_at nub M this 19;
     external_reference := None |}.

(** [void eval_f(t, x, u, dx) const] on the object at [this]. *)
Definition eval_f_stmts (F : mem -> OCP) (t : Scalar) (x u : ptr) (m0 : mem)
  : list assign :=
  let x0 := sin (load m0 x 1) in
  let x1 := 1 / (m_c (F m0) + m_p (F m0) * x0 ^ 2) in
  let x2 := cos (load m0 x 1) in
  let x3 := l (F m0) * (load m0 x 1) ^ 2 in
  let x4 := m_p (F m0) * x0 in
  [ (0%Z, fun m => load m x 2);
    (1%Z, fun m => load m x 3);
    (2%Z, fun m => x1 * (load m u 0 + x4 * (g (F m) * x2 + x3)));
    (3%Z, fun m => x1 * (- g (F m) * x0 * (m_c (F m) + m_p (F m)) - load m u 0 * x2
                        - x2 * x3 * x4) / l (F m)) ].

Definition eval_f (this : ptr) (t : Scalar) (x u dx : ptr) (M : mem) : mem :=
  exec dx (eval_f_stmts (object_at this) t x u M) M.

(** [void eval_phix(t, x, phix) const] on the object at [this]. *)
Definition eval_phix_stmts (F : mem -> OCP) (t : Scalar) (x : ptr) (m0 : mem)
  : list assign :=
  [ (0%Z, fun m => (1 / 2) * get (q_terminal (F m)) 0
                   * (2 * load m x 0 - 2 * get (x_ref (F m)) 0));
    (1%Z, fun m => (1 / 2) * get (q_terminal (F m)) 1
                   * (2 * load m x 1 - 2 * get (x_ref (F m)) 1));
    (2%Z, fun m => (1 / 2) * get (q_terminal (F m)) 2
                   * (2 * load m x 2 - 2 * get (x_ref (F m)) 2));
    (3%Z, fun m => (1 / 2) * get (q_terminal (F m)) 3
                   * (2 * load m x 3 - 2 * get (x_ref (F m)) 3)) ].

Definition eval_phix (this : ptr) (t : Scalar) (x phix : ptr) (M : mem) : mem :=
  exec phix (eval_phix_stmts (object_at this) t x M) M.

(** [void eval_hx(t, x, u, lmd, hx) const] on the object at [this]. *)
Definition eval_hx_stmts (F : mem -> OCP) (t : Scalar) (x u lmd : ptr) (m0 : mem)
  : list assign :=
  let x0 := 2 * load m0 x 1 in
  let x1 := sin (load m0 x 1) in
  let x2 := cos (load m0 x 1) in
  let x3 := g (F m0) * x2 in
  let x4 := (load m0 x 1) ^ 2 in
  let x5 := l (F m0) * x4 in
  let x6 := m_p (F m0) * (x3 + x5) in
  let x7 := x1 ^ 2 in
  let x8 := m_c (F m0) + m_p (F m0) * x7 in
  let x9 := m_p (F m0) * x1 in
  let x10 := x2 * x9 in
  let x11 := 2 * x10 / x8 ^ 2 in
  let x12 := 1 / x8 in
  let x13 := g (F m0) * x1 in
  let x14 := m_c (F m0) + m_p (F m0) in
  let x15 := load m0 lmd 3 / l (F m0) in
  [ (0%Z, fun m => (1 / 2) * get (q (F m)) 0
                   * (2 * load m x 0 - 2 * get (x_ref (F m)) 0));
    (1%Z, fun m =>
       - load m lmd 2 * x11 * (load m u 0 + x1 * x6)
       + load m lmd 2 * x12 * (x2 * x6 + x9 * (2 * l (F m) * load m x 1 - x13))
       + (1 / 2) * get (q (F m)) 1 * (x0 - 2 * get (x_ref (F m)) 1)
       - x11 * x15 * (- load m u 0 * x2 - x10 * x5 - x13 * x14)
       + x12 * x15 * (l (F m) * m_p (F m) * x4 * x7 - l (F m) * x0 * x10
                      - m_p (F m) * x2 ^ 2 * x5 + load m u 0 * x1 - x14 * x3));
    (2%Z, fun m => load m lmd 0
                   + (1 / 2) * get (q (F m)) 2
                     * (2 * load m x 2 - 2 * get (x_ref (F m)) 2));
    (3%Z, fun m => load m lmd 1
                   + (1 / 2) * get (q (F m)) 3
                     * (2 * load m x 3 - 2 * get (x_ref (F m)) 3)) ].

Definition eval_hx (this : ptr) (t : Scalar) (x u lmd hx : ptr) (M : mem) : mem :=
  exec hx (eval_hx_stmts (object_at this) t x u lmd M) M.

(** [void eval_hu(t, x, u, lmd, hu) const] on the object at [this]. *)
Definition eval_hu_stmts (F : mem -> OCP) (t : Scalar) (x u lmd : ptr) (m0 : mem)
  : list assign :=
  let x0 := 1 / (m_c (F m0) + m_p (F m0) * (sin (load m0 x 1)) ^ 2) in
  [ (0%Z, fun m => load m lmd 2 * x0 + get (r (F m)) 0 * load m u 0
                   - load m lmd 3 * x0 * cos (load m x 1) / l (F m)) ].

Definition eval_hu (this : ptr) (t : Scalar) (x u lmd hu : ptr) (M : mem) : mem :=
  exec hu (eval_hu_stmts (object_at this) t x u lmd M) M.

End CartpoleObject.

(** ** The hexacopter problem as an object in memory *)

Module HexacopterObject.

Import Hexacopter.

(** The room the object takes, in scalars. *)
Definition sizeof : Z := 57.

(** The data members of the object at [this]. *)
Definition object_at (this : ptr) (M : mem) : OCP :=
  {| m := load M this 0; l := load M this 1; k := load M this 2;
     Ixx := load M this 3; Iyy := load M this 4; Izz := load M this 5;
     gamma := load M this 6; g := load M this 7; z_ref := load M this 8;
     q := array_at 12 M this 9;
     q_terminal := array_at 12 M this 21;
     r := array_at 6 M this 33;
     umin := array_at nub M this 39;
     umax := array_at nub M this 45;
     dummy_weight := array_at nub M this 51 |}.

(** [void eval_f(t, x, u, dx) const] on the object at [this]. *)
Definition eval_f_stmts (F : mem -> OCP) (t : Scalar) (x u : ptr) (m0 : mem)
  : list assign :=
  let x0 := sin (load m0 x 3) in
  let x1 := sin (load m0 x 5) in
  let x2 := cos (load m0 x 5) in
  let x3 := cos (load m0 x 3) in
  let x4 := sin (load m0 x 4) in
  let x5 := 1 / m (F m0) in
  let x6 := load m0 u 0 + load m0 u 2 + load m0 u 4 in
  let x7 := load m0 u 1 + load m0 u 3 + load m0 u 5 + x6 in
  let x8 := x5 * x7 in
  let x9 := 1 / Ixx (F m0) in
  let x10 := - Izz (F m0) in
  let x11 := (1 / 2) * load m0 u 0 in
  let x12 := 1 / Iyy (F m0) in
  let x13 := sqrt 3 in
  let x14 := 1 / Izz (F m0) in
  [ (0%Z, fun M => load M x 6);
    (1%Z, fun M => load M x 7);
    (2%Z, fun M => load M x 8);
    (3%Z, fun M => load M x 9);
    (4%Z, fun M => load M x 10);
    (5%Z, fun M => load M x 11);
    (6%Z, fun M => x8 * (x0 * x1 + x2 * x3 * x4));
    (7%Z, fun M => x8 * (- x0 * x2 + x1 * x3 * x4));
    (8%Z, fun M => - g (F M) + x3 * x5 * x7 * cos (load M x 4));
    (9%Z, fun M =>
       l (F M) * x9 * (- load M u 1 - 1 / 2 * load M u 2 + (1 / 2) * load M u 3
                   + load M u 4 + (1 / 2) * load M u 5 - x11)
       + x9 * load M x 10 * load M x 11 * (Iyy (F M) + x10));
    (10%Z, fun M =>
       l (F M) * x12 * ((1 / 2) * load M u 2 * x13 + (1 / 2) * load M u 3 * x13
                    - 1 / 2 * load M u 5 * x13 - x11 * x13)
       + x12 * load M x 11 * load M x 9 * (- Ixx (F M) - x10));
    (11%Z, fun M =>
       x14 * load M x 10 * load M x 9 * (Ixx (F M) - Iyy (F M))
       + x14 * (- gamma (F M) * load M x 11
                + k (F M) * (load M u 1 + load M u 3 + load M u 5 - x6))) ].

Definition eval_f (this : ptr) (t : Scalar) (x u dx : ptr) (M : mem) : mem :=
  exec dx (eval_f_stmts (object_at this) t x u M) M.

(** [void eval_phix(t, x, phix) const] on the object at [this]. *)
Definition eval_phix_stmts (F : mem -> OCP) (t : Scalar) (x : ptr) (m0 : mem)
  : list assign :=
  let x0 := 2 * t in
  let x1 := sin x0 in
  let x2 := cos x0 in
  [ (0%Z, fun M => (1 / 2) * get (q_terminal (F M)) 0 * (-2 * x1 + 2 * load M x 0));
    (1%Z, fun M => (1 / 2) * get (q_terminal (F M)) 1
                   * (2 * x2 + 2 * load M x 1 - 2));
    (2%Z, fun M => (1 / 2) * get (q_terminal (F M)) 2
                   * (2 * load M x 2 - 2 * z_ref (F M) - 4 * sin t));
    (3%Z, fun M => get (q_terminal (F M)) 3 * load M x 3);
    (4%Z, fun M => get (q_terminal (F M)) 4 * load M x 4);
    (5%Z, fun M => get (q_terminal (F M)) 5 * load M x 5);
    (6%Z, fun M => (1 / 2) * get (q_terminal (F M)) 6 * (-4 * x2 + 2 * load M x 6));
    (7%Z, fun M => (1 / 2) * get (q_terminal (F M)) 7 * (-4 * x1 + 2 * load M x 7));
    (8%Z, fun M => (1 / 2) * get (q_terminal (F M)) 8
                   * (2 * load M x 8 - 4 * cos t));
    (9%Z, fun M => get (q_terminal (F M)) 9 * load M x 9);
    (10%Z, fun M => get (q_terminal (F M)) 10 * load M x 10);
    (11%Z, fun M => get (q_terminal (F M)) 11 * load M x 11) ].

Definition eval_phix (this : ptr) (t : Scalar) (x phix : ptr) (M : mem) : mem :=
  exec phix (eval_phix_stmts (object_at this) t x M) M.

(** [void eval_hx(t, x, u, lmd, hx) const] on the object at [this]. *)
Definition eval_hx_stmts (F : mem -> OCP) (t : Scalar) (x u lmd : ptr) (m0 : mem)
  : list assign :=
  let x0 := 2 * t in
  let x1 := sin x0 in
  let x2 := cos x0 in
  let x3 := sin (load m0 x 3) in
  let x4 := cos (load m0 x 4) in
  let x5 := (load m0 u 0 + load m0 u 1 + load m0 u 2 + load m0 u 3
             + load m0 u 4 + load m0 u 5) / m (F m0) in
  let x6 := load m0 lmd 8 * x5 in
  let x7 := sin (load m0 x 5) in
  let x8 := cos (load m0 x 3) in
  let x9 := sin (load m0 x 4) in
  let x10 := cos (load m0 x 5) in
  let x11 := x10 * x3 in
  let x12 := load m0 lmd 6 * x5 in
  let x13 := x10 * x8 in
  let x14 := x3 * x7 in
  let x15 := load m0 lmd 7 * x5 in
  let x16 := x7 * x8 in
  let x17 := - Izz (F m0) in
  let x18 := load m0 lmd 10 * (- Ixx (F m0) - x17) / Iyy (F m0) in
  let x19 := load m0 lmd 11 / Izz (F m0) in
  let x20 := x19 * (Ixx (F m0) - Iyy (F m0)) in
  let x21 := load m0 lmd 9 * (Iyy (F m0) + x17) / Ixx (F m0) in
  [ (0%Z, fun M => (1 / 2) * get (q (F M)) 0 * (-2 * x1 + 2 * load M x 0));
    (1%Z, fun M => (1 / 2) * get (q (F M)) 1 * (2 * x2 + 2 * load M x 1 - 2));
    (2%Z, fun M => (1 / 2) * get (q (F M)) 2
                   * (2 * load M x 2 - 2 * z_ref (F M) - 4 * sin t));
    (3%Z, fun M => get (q (F M)) 3 * load M x 3 + x12 * (- x11 * x9 + x7 * x8)
                   + x15 * (- x13 - x14 * x9) - x3 * x4 * x6);
    (4%Z, fun M => get (q (F M)) 4 * load M x 4 + x12 * x13 * x4
                   + x15 * x16 * x4 - x6 * x8 * x9);
    (5%Z, fun M => get (q (F M)) 5 * load M x 5 + x12 * (x11 - x16 * x9)
                   + x15 * (x13 * x9 + x14));
    (6%Z, fun M => load M lmd 0
                   + (1 / 2) * get (q (F M)) 6 * (-4 * x2 + 2 * load M x 6));
    (7%Z, fun M => load M lmd 1
                   + (1 / 2) * get (q (F M)) 7 * (-4 * x1 + 2 * load M x 7));
    (8%Z, fun M => load M lmd 2
                   + (1 / 2) * get (q (F M)) 8 * (2 * load M x 8 - 4 * cos t));
    (9%Z, fun M => load M lmd 3 + get (q (F M)) 9 * load M x 9
                   + x18 * load M x 11 + x20 * load M x 10);
    (10%Z, fun M => load M lmd 4 + get (q (F M)) 10 * load M x 10
                    + x20 * load M x 9 + x21 * load M x 11);
    (11%Z, fun M => - gamma (F M) * x19 + load M lmd 5
                    + get (q (F M)) 11 * load M x 11
                    + x18 * load M x 9 + x21 * load M x 10) ].

Definition eval_hx (this : ptr) (t : Scalar) (x u lmd hx : ptr) (M : mem) : mem :=
  exec hx (eval_hx_stmts (object_at this) t x u lmd M) M.

(** [void eval_hu(t, x, u, lmd, hu) const] on the object at [this]. *)
Definition eval_hu_stmts (F : mem -> OCP) (t : Scalar) (x u lmd : ptr) (m0 : mem)
  : list assign :=
  let x0 := (1 / 3) * g (F m0) * m (F m0) in
  let x1 := (1 / 2) * sqrt 3 * l (F m0) * load m0 lmd 10 / Iyy (F m0) in
  let x2 := - x1 in
  let x3 := l (F m0) * load m0 lmd 9 / Ixx (F m0) in
  let x4 := (1 / 2) * x3 in
  let x5 := k (F m0) * load m0 lmd 11 / Izz (F m0) in
  let x6 := 1 / m (F m0) in
  let x7 := sin (load m0 x 3) in
  let x8 := sin (load m0 x 5) in
  let x9 := cos (load m0 x 5) in
  let x10 := cos (load m0 x 3) in
  let x11 := sin (load m0 x 4) in
  let x12 := load m0 lmd 6 * x6 * (x10 * x11 * x9 + x7 * x8)
             + load m0 lmd 7 * x6 * (x10 * x11 * x8 - x7 * x9)
             + load m0 lmd 8 * x10 * x6 * cos (load m0 x 4) in
  let x13 := x12 - x5 in
  let x14 := x13 - x4 in
  let x15 := x12 + x5 in
  let x16 := x15 + x4 in
  [ (0%Z, fun M => (1 / 2) * get (r (F M)) 0 * (2 * load M u 0 - x0) + x14 + x2);
    (1%Z, fun M => (1 / 2) * get (r (F M)) 1 * (2 * load M u 1 - x0) + x15 - x3);
    (2%Z, fun M => (1 / 2) * get (r (F M)) 2 * (2 * load M u 2 - x0) + x1 + x14);
    (3%Z, fun M => (1 / 2) * get (r (F M)) 3 * (2 * load M u 3 - x0) + x1 + x16);
    (4%Z, fun M => (1 / 2) * get (r (F M)) 4 * (2 * load M u 4 - x0) + x13 + x3);
    (5%Z, fun M => (1 / 2) * get (r (F M)) 5 * (2 * load M u 5 - x0) + x16 + x2) ].

Definition eval_hu (this : ptr) (t : Scalar) (x u lmd hu : ptr) (M : mem) : mem :=
  exec hu (eval_hu_stmts (object_at this) t x u lmd M) M.

(** The overloads on Eigen vectors. *)
Module Checked.

Definition eval_f (this : ptr) (t : Scalar) (x u dx : Vec) (M : mem)
  : outcome mem :=
  if negb (size x =? nx)%Z then Thrown (Hexacopter.Checked.must_be "x" nx) M
  else if negb (size u =? nu)%Z then Thrown (Hexacopter.Checked.must_be "u" nu) M
  else if negb (size dx =? nx)%Z
       then Thrown (Hexacopter.Checked.must_be "dx" nx) M
  else Normal (eval_f this t (data x) (data u) (data dx) M).

Definition eval_phix (this : ptr) (t : Scalar) (x phix : Vec) (M : mem)
  : outcome mem :=
  if negb (size x =? nx)%Z then Thrown (Hexacopter.Checked.must_be "x" nx) M
  else if negb (size phix =? nx)%Z
       then Thrown (Hexacopter.Checked.must_be "phix" nx) M
  else Normal (eval_phix this t (data x) (data phix) M).

Definition eval_hx (this : ptr) (t : Scalar) (x uc lmd hx : Vec) (M : mem)
  : outcome mem :=
  if negb (size x =? nx)%Z then Thrown (Hexacopter.Checked.must_be "x" nx) M
  else if negb (size uc =? nuc)%Z
       then Thrown (Hexacopter.Checked.must_be "uc" nuc) M
  else if negb (size lmd =? nx)%Z
       then Thrown (Hexacopter.Checked.must_be "lmd" nx) M
  else if negb (size hx =? nuc)%Z
       then Thrown (Hexacopter.Checked.must_be "hx" nx) M
  else Normal (eval_hx this t (data x) (data uc) (data lmd) (data hx) M).

Definition eval_hu (this : ptr) (t : Scalar) (x uc lmd hu : Vec) (M : mem)
  : outcome mem :=
  if negb (size x =? nx)%Z then Thrown (Hexacopter.Checked.must_be "x" nx) M
  else if negb (size uc =? nuc)%Z
       then Thrown (Hexacopter.Checked.must_be "uc" nuc) M
  else if negb (size lmd =? nx)%Z
       then Thrown (Hexacopter.Checked.must_be "lmd" nx) M
  else if negb (size hu =? nuc)%Z
       then Thrown (Hexacopter.Checked.must_be "hu" nuc) M
  else Normal (eval_hu this t (data x) (data uc) (data lmd) (data hu) M).

End Checked.

End HexacopterObject.

(** ** Fischer-Burmeister transform *)

(** Modelled from the spec: the Fischer-Burmeister function of the solver
    core, whose source is not among the example files:
    FB(a,b;eps) = a + b - sqrt(a^2 + b^2 + eps). *)
Definition FB (a b eps : Scalar) : Scalar :=
  a + b - sqrt (a ^ 2 + b ^ 2 + eps).

(** ** Arrays in memory and what a call may touch *)

(** The cells [p .. p + n - 1] of an array of [n] scalars at [p]. *)
Definition range (p : ptr) (n : Z) (a : Z) : Prop := (p <= a < p + n)%Z.

(** Two arrays that share no cell. *)
Definition apart (p : ptr) (n : Z) (q : ptr) (k : Z) : Prop :=
  (p + n <= q \/ q + k <= p)%Z.

(** The array of [n] scalars at [p1] in [m1] holds what the one at [p2]
    holds in [m2]. *)
Definition same_contents (m1 : mem) (p1 : ptr) (m2 : mem) (p2 : ptr) (n : Z)
  : Prop :=
  forall i : Z, (0 <= i < n)%Z -> load m1 p1 i = load m2 p2 i.

(** Every statement of a body writes an index below [n]. *)
Definition writes_within (n : Z) (body : list assign) : Prop :=
  Forall (fun a : assign => (0 <= fst a < n)%Z) body.

(** Two memories that hold the same scalars in the cells [inp]. *)
Definition agree (inp : Z -> Prop) (m m' : mem) : Prop :=
  forall a : Z, inp a -> m a = m' a.

(** A right-hand side whose value depends on the cells in [inp] only. *)
Definition reads_only (inp : Z -> Prop) (e : mem -> Scalar) : Prop :=
  forall m m' : mem, agree inp m m' -> e m = e m'.

(** A body run with every right-hand side evaluated in the memory [m0]. *)
Definition exec_at (m0 : mem) (out : ptr) (body : list assign) (m : mem) : mem :=
  fold_left (fun (m : mem) (a : assign) => store m out (fst a) (snd a m0)) body m.

(** A call that took [s] to [s'] left the object, and every cell outside
    the output array, as they were. *)
Definition writes_only {O : Type} (out : ptr) (n : Z) (s s' : state O) : Prop :=
  self s' = self s
  /\ forall a : Z, ~ range out n a -> heap s' a = heap s a.

(** Evaluators with one, two and three input arrays ([n1], [n2], [n3] their
    lengths, [nout] that of the output): a call writes only its output
    array; an input array apart from the output array keeps its contents;
    and two calls on the same object values and the same input contents,
    each with its output apart from its inputs, leave the same output
    contents. *)
Definition pure1 {O : Type} (E : Scalar -> ptr -> ptr -> state O -> state O)
    (n1 nout : Z) : Prop :=
  (forall t x out s, writes_only out nout s (E t x out s))
  /\ (forall t x out s, apart out nout x n1 ->
        same_contents (heap (E t x out s)) x (heap s) x n1)
  /\ (forall t x out s x' out' s',
        self s = self s' ->
        same_contents (heap s) x (heap s') x' n1 ->
        apart out nout x n1 -> apart out' nout x' n1 ->
        same_contents (heap (E t x out s)) out (heap (E t x' out' s')) out' nout).

Definition pure2 {O : Type}
    (E : Scalar -> ptr -> ptr -> ptr -> state O -> state O)
    (n1 n2 nout : Z) : Prop :=
  (forall t x u out s, writes_only out nout s (E t x u out s))
  /\ (forall t x u out s, apart out nout x n1 -> apart out nout u n2 ->
        same_contents (heap (E t x u out s)) x (heap s) x n1
        /\ same_contents (heap (E t x u out s)) u (heap s) u n2)
  /\ (forall t x u out s x' u' out' s',
        self s = self s' ->
        same_contents (heap s) x (heap s') x' n1 ->
        same_contents (heap s) u (heap s') u' n2 ->
        apart out nout x n1 -> apart out nout u n2 ->
        apart out' nout x' n1 -> apart out' nout u' n2 ->
        same_contents (heap (E t x u out s)) out
                      (heap (E t x' u' out' s')) out' nout).

Definition pure3 {O : Type}
    (E : Scalar -> ptr -> ptr -> ptr -> ptr -> state O -> state O)
    (n1 n2 n3 nout : Z) : Prop :=
  (forall t x u lmd out s, writes_only out nout s (E t x u lmd out s))
  /\ (forall t x u lmd out s,
        apart out nout x n1 -> apart out nout u n2 -> apart out nout lmd n3 ->
        same_contents (heap (E t x u lmd out s)) x (heap s) x n1
        /\ same_contents (heap (E t x u lmd out s)) u (heap s) u n2
        /\ same_contents (heap (E t x u lmd out s)) lmd (heap s) lmd n3)
  /\ (forall t x u lmd out s x' u' lmd' out' s',
        self s = self s' ->
        same_contents (heap s) x (heap s') x' n1 ->
        same_contents (heap s) u (heap s') u' n2 ->
        same_contents (heap s) lmd (heap s') lmd' n3 ->
        apart out nout x n1 -> apart out nout u n2 -> apart out nout lmd n3 ->
        apart out' nout x' n1 -> apart out' nout u' n2 ->
        apart out' nout lmd' n3 ->
        same_contents (heap (E t x u lmd out s)) out
                      (heap (E t x' u' lmd' out' s')) out' nout).

(** The same three properties for an evaluator that reads its object at
    [this] from the memory ([sz] scalars, read by [obj]): a call whose
    output array is apart from the object writes only its output array and
    leaves every member as it was; an input array apart from the output
    array keeps its contents; and two calls on objects with the same
    members and on the same input contents, each with its output apart
    from its object and its inputs, leave the same output contents. *)
Definition pure_at1 {O : Type} (sz : Z) (obj : ptr -> mem -> O)
    (E : ptr -> Scalar -> ptr -> ptr -> mem -> mem) (n1 nout : Z) : Prop :=
  (forall this t x out M, apart out nout this sz ->
     (forall a : Z, ~ range out nout a -> E this t x out M a = M a)
     /\ obj this (E this t x out M) = obj this M
     /\ (apart out nout x n1 -> same_contents (E this t x out M) x M x n1))
  /\ (forall this t x out M this' x' out' M',
        obj this M = obj this' M' ->
        same_contents M x M' x' n1 ->
        apart out nout this sz -> apart out nout x n1 ->
        apart out' nout this' sz -> apart out' nout x' n1 ->
        same_contents (E this t x out M) out (E this' t x' out' M') out' nout).

Definition pure_at2 {O : Type} (sz : Z) (obj : ptr -> mem -> O)
    (E : ptr -> Scalar -> ptr -> ptr -> ptr -> mem -> mem)
    (n1 n2 nout : Z) : Prop :=
  (forall this t x u out M, apart out nout this sz ->
     (forall a : Z, ~ range out nout a -> E this t x u out M a = M a)
     /\ obj this (E this t x u out M) = obj this M
     /\ (apart out nout x n1 -> same_contents (E this t x u out M) x M x n1)
     /\ (apart out nout u n2 -> same_contents (E this t x u out M) u M u n2))
  /\ (forall this t x u out M this' x' u' out' M',
        obj this M = obj this' M' ->
        same_contents M x M' x' n1 -> same_contents M u M' u' n2 ->
        apart out nout this sz -> apart out nout x n1 -> apart out nout u n2 ->
        apart out' nout this' sz -> apart out' nout x' n1 ->
        apart out' nout u' n2 ->
        same_contents (E this t x u out M) out
                      (E this' t x' u' out' M') out' nout).

Definition pure_at3 {O : Type} (sz : Z) (obj : ptr -> mem -> O)
    (E : ptr -> Scalar -> ptr -> ptr -> ptr -> ptr -> mem -> mem)
    (n1 n2 n3 nout : Z) : Prop :=
  (forall this t x u lmd out M, apart out nout this sz ->
     (forall a : Z, ~ range out nout a -> E this t x u lmd out M a = M a)
     /\ obj this (E this t x u lmd out M) = obj this M
     /\ (apart out nout x n1 ->
         same_contents (E this t x u lmd out M) x M x n1)
     /\ (apart out nout u n2 ->
         same_contents (E this t x u lmd out M) u M u n2)
     /\ (apart out nout lmd n3 ->
         same_contents (E this t x u lmd out M) lmd M lmd n3))
  /\ (forall this t x u lmd out M this' x' u' lmd' out' M',
        obj this M = obj this' M' ->
        same_contents M x M' x' n1 -> same_contents M u M' u' n2 ->
        same_contents M lmd M' lmd' n3 ->
        apart out nout this sz -> apart out nout x n1 -> apart out nout u n2 ->
        apart out nout lmd n3 ->
        apart out' nout this' sz -> apart out' nout x' n1 ->
        apart out' nout u' n2 -> apart out' nout lmd' n3 ->
        same_contents (E this t x u lmd out M) out
                      (E this' t x' u' lmd' out' M') out' nout).

(** A size-checked overload ended by [std::invalid_argument] with the
    memory [M] it started from, or it found the sizes [ok] and ended
    normally in the memory [r]. *)
Definition checked_call (c : outcome mem) (M : mem) (ok : Prop) (r : mem)
  : Prop :=
  (exists what : string, c = Thrown (invalid_argument what) M)
  \/ (ok /\ c = Normal r).

(** A memory for the calls below: [x[0] = 1] and [x[2] = 2] for an array
    [x] at 0, and a cart-pole object at 100 whose [q[0]] (cell 104) is
    1; every other scalar is 0. *)
Definition crossed_heap : mem :=
  fun a => if Z.eqb a 0 then 1
           else if Z.eqb a 2 then 2
           else if Z.eqb a 104 then 1 else 0.

(** ** Perturbed inputs, sums and the reference of the hexacopter cost *)

(** The state in which the scalar [p[j]] is larger by 1. *)
Definition bump {O : Type} (p : ptr) (j : Z) (s : state O) : state O :=
  mkState (self s) (store (heap s) p j (load (heap s) p j + 1)).

(** The state in which the scalar [p[j]] is larger by [c]. *)
Definition bump_by {O : Type} (p : ptr) (j : Z) (c : Scalar) (s : state O)
  : state O :=
  mkState (self s) (store (heap s) p j (load (heap s) p j + c)).

(** [f 0 + f 1 + ... + f (n - 1)]. *)
Fixpoint sum_to (n : nat) (f : Z -> Scalar) : Scalar :=
  match n with
  | O => 0
  | S k => sum_to k f + f (Z.of_nat k)
  end.

(** The state the cost terms of [OCP_hexacopter] measure the distance to
    at time [t], read off [eval_phix]: a position on a curve, level
    attitude, the matching linear velocity and no angular velocity. *)
Definition hexacopter_reference (z_ref t : Scalar) (i : Z) : Scalar :=
  match i with
  | 0%Z => sin (2 * t)
  | 1%Z => 1 - cos (2 * t)
  | 2%Z => z_ref + 2 * sin t
  | 6%Z => 2 * cos (2 * t)
  | 7%Z => 2 * sin (2 * t)
  | 8%Z => 2 * cos t
  | _ => 0
  end.

(** * Properties *)

(** ** Scalar comparisons *)

Lemma Rleb_true (a b : R) : Rleb a b = true <-> a <= b.
Proof. unfold Rleb; destruct (Rle_dec a b); split; intros; try easy; lra. Qed.

Lemma Rleb_false (a b : R) : Rleb a b = false <-> b < a.
Proof. unfold Rleb; destruct (Rle_dec a b); split; intros; try easy; lra. Qed.

Lemma Rltb_true (a b : R) : Rltb a b = true <-> a < b.
Proof. unfold Rltb; destruct (Rlt_dec a b); split; intros; try easy; lra. Qed.

Lemma Rltb_false (a b : R) : Rltb a b = false <-> b <= a.
Proof. unfold Rltb; destruct (Rlt_dec a b); split; intros; try easy; lra. Qed.

(** ** The horizon schedule *)

Section HorizonFacts.

Import Horizon.

Lemma ctor_ok (Tf alpha t0 : Scalar) :
  0 < Tf ->
  ctor Tf alpha t0 =
  inr {| Tf_ := Tf; alpha_ := alpha; t0_ := t0;
         time_varying_length_ := Rltb 0 alpha |}.
Proof.
  intros HTf. unfold ctor.
  destruct (Rleb Tf 0) eqn:E; [apply Rleb_true in E; lra | reflexivity].
Qed.

Lemma ctor_throws (Tf alpha t0 : Scalar) :
  Tf <= 0 ->
  ctor Tf alpha t0 = inl (invalid_argument "[Horizon]: 'Tf' must be positive!").
Proof.
  intros HTf. unfold ctor.
  destruct (Rleb Tf 0) eqn:E; [reflexivity | apply Rleb_false in E; lra].
Qed.

Lemma ctor_inv (Tf alpha t0 : Scalar) (h : Horizon) :
  ctor Tf alpha t0 = inr h ->
  0 < Tf /\ Tf_ h = Tf /\ alpha_ h = alpha /\ t0_ h = t0
  /\ time_varying_length_ h = Rltb 0 alpha.
Proof.
  unfold ctor. destruct (Rleb Tf 0) eqn:E; [discriminate |].
  intros [= <-]. apply Rleb_false in E. cbn. tauto.
Qed.

Lemma T_growing (h : Horizon) (t : Scalar) :
  time_varying_length_ h = true ->
  T h t = Tf_ h * (1 - exp (- alpha_ h * (t - t0_ h))).
Proof. intros E. unfold T. now rewrite E. Qed.

Lemma T_fixed (h : Horizon) (t : Scalar) :
  time_varying_length_ h = false -> T h t = Tf_ h.
Proof. intros E. unfold T. now rewrite E. Qed.

(** With the assertion enabled and satisfied, the value is that of [T]. *)
Lemma T_assert_holds (h : Horizon) (t : Scalar) :
  t0_ h <= t -> T_assert h t = Some (T h t).
Proof.
  intros Ht. unfold T_assert, T.
  destruct (time_varying_length_ h); [| reflexivity].
  destruct (Rleb (t0_ h) t) eqn:E; [reflexivity |].
  apply Rleb_false in E. lra.
Qed.

Lemma exp_le_mono (a b : R) : a <= b -> exp a <= exp b.
Proof.
  intros [Hlt | ->]; [left; now apply exp_increasing | right; reflexivity].
Qed.

Lemma exp_nonpos_le_1 (a : R) : a <= 0 -> exp a <= 1.
Proof. intros Ha. rewrite <- exp_0. now apply exp_le_mono. Qed.

(** [2 * exp (- t)] falls below any positive bound. *)
Lemma exp_neg_small (eps : R) :
  0 < eps -> forall t, - ln (eps / 2) < t -> 2 * exp (- t) < eps.
Proof.
  intros Heps t Ht.
  assert (Hh : 0 < eps / 2) by lra.
  assert (Hlt : exp (- t) < exp (ln (eps / 2))) by (apply exp_increasing; lra).
  rewrite (exp_ln _ Hh) in Hlt. lra.
Qed.

(** C1: for [Horizon(Tf, alpha, t0)] with [Tf > 0] the construction
    succeeds and, at every time [t], [T(t)] is
    [Tf * (1 - exp (- alpha * (t - t0)))] when [alpha > 0] and [Tf]
    otherwise; for [Tf = 2], [alpha = 1], [t0 = 0] this gives [T(0) = 0],
    [T(1) = 2 * (1 - exp (-1))], and [T(t)] tends to 2 as [t] grows. *)
Theorem horizon_T_value (Tf alpha t0 : Scalar) (HTf : 0 < Tf) :
  exists h : Horizon,
    ctor Tf alpha t0 = inr h
    /\ (forall t : Scalar,
          (0 < alpha -> T h t = Tf * (1 - exp (- alpha * (t - t0))))
          /\ (alpha <= 0 -> T h t = Tf))
    /\ (Tf = 2 -> alpha = 1 -> t0 = 0 ->
        T h 0 = 0
        /\ T h 1 = 2 * (1 - exp (-1))
        /\ forall eps : R, 0 < eps ->
             exists t1 : R, forall t : R, t1 < t -> Rabs (T h t - 2) < eps).
Proof.
  eexists. split; [apply ctor_ok, HTf |]. split.
  - intros t. split; intros Ha.
    + apply Rltb_true in Ha. rewrite T_growing by exact Ha. reflexivity.
    + apply Rltb_false in Ha. rewrite T_fixed by exact Ha. reflexivity.
  - intros -> -> ->.
    assert (Hg : Rltb 0 1 = true) by (apply Rltb_true; lra).
    repeat split.
    + rewrite T_growing by exact Hg. cbn.
      replace (- (1) * (0 - 0)) with 0 by lra. rewrite exp_0. lra.
    + rewrite T_growing by exact Hg. cbn.
      replace (- (1) * (1 - 0)) with (-1) by lra. reflexivity.
    + intros eps Heps. exists (- ln (eps / 2)). intros t Ht.
      rewrite T_growing by exact Hg. cbn.
      replace (- (1) * (t - 0)) with (- t) by lra.
      pose proof (exp_neg_small eps Heps t Ht) as Hs.
      pose proof (exp_pos (- t)) as Hp.
      apply Rabs_def1; lra.
Qed.

Lemma horizon_T_value_witness :
  exists h : Horizon,
    ctor 2 1 0 = inr h
    /\ (forall t : Scalar,
          (0 < 1 -> T h t = 2 * (1 - exp (- (1) * (t - 0))))
          /\ (1 <= 0 -> T h t = 2))
    /\ (2 = 2 -> 1 = 1 -> 0 = 0 ->
        T h 0 = 0
        /\ T h 1 = 2 * (1 - exp (-1))
        /\ forall eps : R, 0 < eps ->
             exists t1 : R, forall t : R, t1 < t -> Rabs (T h t - 2) < eps).
Proof. apply (horizon_T_value 2 1 0). lra. Defined.

(** C3: for [Tf > 0] and [alpha > 0] the map [t |-> T(t)] on [t >= t0] is
    non-decreasing, stays within [0, Tf] and is 0 at [t0]; for
    [alpha <= 0], [T(t) = Tf] at every [t]. *)
Theorem horizon_T_monotone_bounded (Tf alpha t0 : Scalar) (HTf : 0 < Tf) :
  exists h : Horizon,
    ctor Tf alpha t0 = inr h
    /\ (0 < alpha ->
        (forall t1 t2 : Scalar, t0 <= t1 -> t1 <= t2 -> T h t1 <= T h t2)
        /\ (forall t : Scalar, t0 <= t -> 0 <= T h t <= Tf)
        /\ T h t0 = 0)
    /\ (alpha <= 0 -> forall t : Scalar, T h t = Tf).
Proof.
  eexists. split; [apply ctor_ok, HTf |]. split.
  - intros Ha.
    assert (Hg : Rltb 0 alpha = true) by (apply Rltb_true; exact Ha).
    repeat split.
    + intros t1 t2 H1 H2. rewrite !T_growing by exact Hg. cbn.
      assert (He : exp (- alpha * (t2 - t0)) <= exp (- alpha * (t1 - t0)))
        by (apply exp_le_mono; nra).
      nra.
    + rewrite T_growing by exact Hg. cbn.
      assert (He : exp (- alpha * (t - t0)) <= 1)
        by (apply exp_nonpos_le_1; nra).
      nra.
    + rewrite T_growing by exact Hg. cbn.
      pose proof (exp_pos (- alpha * (t - t0))). nra.
    + rewrite T_growing by exact Hg. cbn.
      replace (- alpha * (t0 - t0)) with 0 by lra. rewrite exp_0. lra.
  - intros Ha t. apply Rltb_false in Ha. now rewrite T_fixed.
Qed.

Lemma horizon_T_monotone_bounded_witness :
  exists h : Horizon,
    ctor 2 1 0 = inr h
    /\ (0 < 1 ->
        (forall t1 t2 : Scalar, 0 <= t1 -> t1 <= t2 -> T h t1 <= T h t2)
        /\ (forall t : Scalar, 0 <= t -> 0 <= T h t <= 2)
        /\ T h 0 = 0)
    /\ (1 <= 0 -> forall t : Scalar, T h t = 2).
Proof. apply (horizon_T_monotone_bounded 2 1 0). lra. Defined.

End HorizonFacts.

Section HorizonGuard.

Import Horizon.

Lemma reset_members (h : Horizon) (t0 : Scalar) :
  t0_ (reset h t0) = t0
  /\ Tf_ (reset h t0) = Tf_ h
  /\ alpha_ (reset h t0) = alpha_ h
  /\ time_varying_length_ (reset h t0) = time_varying_length_ h.
Proof. unfold reset; cbn; tauto. Qed.

Lemma checked_members (h : Horizon) :
  checked h ->
  0 < Tf_ h /\ time_varying_length_ h = Rltb 0 (alpha_ h).
Proof.
  induction 1 as [Tf alpha t0 h Hc | h t0 Hh IH].
  - apply ctor_inv in Hc as (HTf & -> & -> & _ & ->). split; [exact HTf | easy].
  - exact IH.
Qed.

(** C10: [reset(t0_new)] assigns [t0_] and leaves [Tf_], [alpha_] and the
    time-varying flag as they were; for a horizon constructed with
    [alpha > 0] (and [reset] any number of times since), [T(t0_new) = 0]
    right after. *)
Theorem horizon_reset_frame (h : Horizon) (t0_new : Scalar) :
  t0_ (reset h t0_new) = t0_new
  /\ Tf_ (reset h t0_new) = Tf_ h
  /\ alpha_ (reset h t0_new) = alpha_ h
  /\ time_varying_length_ (reset h t0_new) = time_varying_length_ h
  /\ (forall Tf alpha t0 : Scalar,
        0 < alpha -> ctor Tf alpha t0 = inr h ->
        T (reset h t0_new) t0_new = 0)
  /\ (checked h -> 0 < alpha_ h -> T (reset h t0_new) t0_new = 0).
Proof.
  pose proof (reset_members h t0_new) as (Ht & HT & Ha & Hf).
  assert (Hzero : time_varying_length_ h = true ->
                  T (reset h t0_new) t0_new = 0).
  { intros Hflag. rewrite T_growing by (rewrite Hf; exact Hflag). rewrite Ht.
    replace (- alpha_ (reset h t0_new) * (t0_new - t0_new)) with 0 by lra.
    rewrite exp_0. lra. }
  split; [exact Ht |]. split; [exact HT |]. split; [exact Ha |].
  split; [exact Hf |]. split.
  - intros Tf alpha t0 Hpos Hc. apply Hzero.
    apply ctor_inv in Hc as (_ & _ & _ & _ & Hflag).
    rewrite Hflag. apply Rltb_true, Hpos.
  - intros Hck Hpos. apply Hzero.
    apply checked_members in Hck as (_ & Hflag).
    rewrite Hflag. apply Rltb_true, Hpos.
Qed.

Lemma horizon_reset_frame_witness :
  exists h : Horizon,
    ctor 1 1 0 = inr h
    /\ t0_ (reset h 3) = 3
    /\ T (reset h 3) 3 = 0.
Proof.
  eexists. split; [apply ctor_ok; lra |].
  split.
  - apply (horizon_reset_frame _ 3).
  - apply (proj1 (proj2 (proj2 (proj2 (proj2 (horizon_reset_frame _ 3))))) 1 1 0);
      [lra | apply ctor_ok; lra].
Defined.

End HorizonGuard.

(** ** The guard of the constructor, on doubles *)

Section HorizonGuard64.

Import Horizon64.

(** A double that is neither [<= 0] nor a NaN is [> 0]. *)
Lemma not_le_zero_gt (a : double) :
  le a PrimFloat.zero = false -> isnan a = false -> gt a PrimFloat.zero = true.
Proof.
  unfold le, gt, isnan, PrimFloat.is_nan.
  rewrite FloatAxioms.leb_spec, FloatAxioms.ltb_spec, FloatAxioms.eqb_spec.
  change (FloatOps.Prim2SF PrimFloat.zero) with (SpecFloat.S754_zero false).
  destruct (FloatOps.Prim2SF a) as [sg | sg | | sg mt ex];
    try destruct sg; cbn; congruence.
Qed.

(** A double that is [> 0] is not [<= 0] and is not a NaN. *)
Lemma gt_zero_not_le (a : double) :
  gt a PrimFloat.zero = true -> le a PrimFloat.zero = false /\ isnan a = false.
Proof.
  unfold le, gt, isnan, PrimFloat.is_nan.
  rewrite FloatAxioms.leb_spec, FloatAxioms.ltb_spec, FloatAxioms.eqb_spec.
  change (FloatOps.Prim2SF PrimFloat.zero) with (SpecFloat.S754_zero false).
  destruct (FloatOps.Prim2SF a) as [sg | sg | | sg mt ex];
    try destruct sg; cbn; try congruence; intros _; split; try reflexivity.
  - unfold SpecFloat.SFeqb, SpecFloat.SFcompare.
    rewrite Z.compare_refl, Pos.compare_cont_refl. reflexivity.
Qed.

Lemma ctor64_inv (Tf alpha t0 : double) (h : Horizon) :
  ctor Tf alpha t0 = inr h -> le Tf PrimFloat.zero = false /\ Tf_ h = Tf.
Proof.
  unfold ctor. destruct (le Tf PrimFloat.zero); [discriminate |].
  intros [= <-]. split; reflexivity.
Qed.

Lemma checked64_Tf (h : Horizon) :
  checked h -> le (Tf_ h) PrimFloat.zero = false.
Proof.
  induction 1 as [Tf alpha t0 h Hc | h t0 Hh IH].
  - apply ctor64_inv in Hc as (Hle & ->). exact Hle.
  - exact IH.
Qed.

(** C4, as the class is written: a value-initialised [Horizon] is an
    instance obtained from a constructor of the class, and its [Tf_] is 0;
    and [Horizon(NaN, 0, 0)] does not throw and yields an instance whose
    [Tf_] is a NaN.  Neither has [Tf_ > 0]. *)
Lemma horizon64_unchecked_instances :
  (obtainable value_init /\ gt (Tf_ value_init) PrimFloat.zero = false)
  /\ (ctor PrimFloat.nan PrimFloat.zero PrimFloat.zero =
      inr (mkHorizon PrimFloat.nan PrimFloat.zero PrimFloat.zero false)
      /\ obtainable (mkHorizon PrimFloat.nan PrimFloat.zero PrimFloat.zero false)
      /\ gt (Tf_ (mkHorizon PrimFloat.nan PrimFloat.zero PrimFloat.zero false))
            PrimFloat.zero = false).
Proof.
  split; [split | split; [| split]].
  - unfold value_init. apply ob_default.
  - reflexivity.
  - reflexivity.
  - apply (ob_ctor PrimFloat.nan PrimFloat.zero PrimFloat.zero). reflexivity.
  - reflexivity.
Qed.

(** C4, amended: [Horizon(Tf, alpha, t0)] throws [std::invalid_argument]
    exactly when the comparison [Tf <= 0] holds, so not for a NaN; it
    yields an instance otherwise.  For every instance that comes from this
    constructor, however often it was [reset], [Tf_ <= 0] is false: [Tf_]
    is [> 0] unless it is a NaN, and it is [> 0] whenever the argument was.
    [reset] never changes [Tf_].  (The defaulted constructor checks
    nothing.) *)
Theorem horizon64_ctor_guard :
  (forall Tf alpha t0 : double,
     (exists what, ctor Tf alpha t0 = inl (invalid_argument what))
     <-> le Tf PrimFloat.zero = true)
  /\ (forall Tf alpha t0 : double,
        le Tf PrimFloat.zero = false ->
        exists h, ctor Tf alpha t0 = inr h /\ checked h /\ Tf_ h = Tf)
  /\ (forall h : Horizon,
        checked h ->
        le (Tf_ h) PrimFloat.zero = false
        /\ (isnan (Tf_ h) = false -> gt (Tf_ h) PrimFloat.zero = true))
  /\ (forall Tf alpha t0 : double,
        gt Tf PrimFloat.zero = true ->
        exists h, ctor Tf alpha t0 = inr h /\ checked h
                  /\ gt (Tf_ h) PrimFloat.zero = true)
  /\ (forall (h : Horizon) (t0 : double), Tf_ (reset h t0) = Tf_ h).
Proof.
  split; [| split; [| split; [| split]]].
  - intros Tf alpha t0. unfold ctor.
    destruct (le Tf PrimFloat.zero); split; intros H.
    + reflexivity.
    + eexists. reflexivity.
    + destruct H as [what H]. discriminate.
    + discriminate.
  - intros Tf alpha t0 Hle.
    assert (Hc : ctor Tf alpha t0 =
                 inr (mkHorizon Tf alpha t0 (gt alpha PrimFloat.zero)))
      by (unfold ctor; rewrite Hle; reflexivity).
    eexists. split; [exact Hc |]. split; [| reflexivity].
    apply (ck_ctor Tf alpha t0). exact Hc.
  - intros h Hh. pose proof (checked64_Tf h Hh) as Hle.
    split; [exact Hle |]. intros Hn. apply not_le_zero_gt; assumption.
  - intros Tf alpha t0 Hgt.
    pose proof (gt_zero_not_le Tf Hgt) as (Hle & _).
    assert (Hc : ctor Tf alpha t0 =
                 inr (mkHorizon Tf alpha t0 (gt alpha PrimFloat.zero)))
      by (unfold ctor; rewrite Hle; reflexivity).
    eexists. split; [exact Hc |]. split; [| exact Hgt].
    apply (ck_ctor Tf alpha t0). exact Hc.
  - intros h t0. reflexivity.
Qed.

End HorizonGuard64.

(** ** The Fischer-Burmeister function *)

(** C7: [FB(a, b; 0) = 0] exactly when [a >= 0], [b >= 0] and [a * b = 0]. *)
Theorem FB_zero_iff (a b : Scalar) :
  FB a b 0 = 0 <-> (0 <= a /\ 0 <= b /\ a * b = 0).
Proof.
  unfold FB. rewrite Rplus_0_r.
  assert (Hnn : 0 <= a ^ 2 + b ^ 2) by nra.
  split.
  - intros H.
    pose proof (sqrt_pos (a ^ 2 + b ^ 2)) as Hs.
    pose proof (sqrt_sqrt _ Hnn) as Hss.
    set (s := sqrt (a ^ 2 + b ^ 2)) in *.
    assert (Hab : a * b = 0) by nra.
    destruct (Rmult_integral _ _ Hab) as [-> | ->]; repeat split; nra.
  - intros (Ha & Hb & Hab).
    replace (a ^ 2 + b ^ 2) with ((a + b) * (a + b)) by nra.
    rewrite sqrt_square by lra. lra.
Qed.

(** ** Fixed-size arrays *)

Lemma get_set_same (n : nat) (a : std_array n) (i : nat) (v : Scalar) :
  (i < n)%nat -> get (set a i v) i = v.
Proof.
  revert a i. induction n as [| n IH]; intros a i Hi; [lia |].
  destruct i as [| i]; cbn; [reflexivity | apply IH; lia].
Qed.

Lemma get_set_other (n : nat) (a : std_array n) (i j : nat) (v : Scalar) :
  i <> j -> get (set a i v) j = get a j.
Proof.
  revert a i j. induction n as [| n IH]; intros a i j Hij; [reflexivity |].
  destruct i as [| i], j as [| j]; cbn; try reflexivity; try lia.
  apply IH. lia.
Qed.

(** ** [synchronize] of the cart-pole problem *)

Section CartpoleSynchronize.

Import Cartpole.

Lemma synchronize_null (s : state OCP) :
  external_reference (self s) = None -> synchronize s = s.
Proof. intros E. unfold synchronize. now rewrite E. Qed.

Lemma synchronize_attached (s : state OCP) (p : ptr) :
  external_reference (self s) = Some p ->
  synchronize s =
  mkState (with_x_ref (self s) (set (x_ref (self s)) 0 (load (heap s) p 0)))
          (heap s).
Proof. intros E. unfold synchronize. now rewrite E. Qed.

(** C6: [synchronize()] changes at most [x_ref[0]]: with a non-null
    [external_reference] that entry becomes the referenced
    [cart_position]; every other member, the other entries of [x_ref],
    the pointer itself and the memory stay as they were.
    ([ubound_indices] is a constant of the class, not part of the state.) *)
Theorem cartpole_synchronize_frame (s : state OCP) :
  m_c (self (synchronize s)) = m_c (self s)
  /\ m_p (self (synchronize s)) = m_p (self s)
  /\ l (self (synchronize s)) = l (self s)
  /\ g (self (synchronize s)) = g (self s)
  /\ q (self (synchronize s)) = q (self s)
  /\ q_terminal (self (synchronize s)) = q_terminal (self s)
  /\ r (self (synchronize s)) = r (self s)
  /\ umin (self (synchronize s)) = umin (self s)
  /\ umax (self (synchronize s)) = umax (self s)
  /\ dummy_weight (self (synchronize s)) = dummy_weight (self s)
  /\ external_reference (self (synchronize s)) = external_reference (self s)
  /\ heap (synchronize s) = heap s
  /\ (forall i : nat, i <> 0%nat ->
        get (x_ref (self (synchronize s))) i = get (x_ref (self s)) i)
  /\ (forall p : ptr, external_reference (self s) = Some p ->
        get (x_ref (self (synchronize s))) 0 = load (heap s) p 0).
Proof.
  destruct (external_reference (self s)) as [p |] eqn:E.
  - rewrite (synchronize_attached s p E).
    repeat (match goal with |- _ /\ _ => split end); try reflexivity.
    + cbn [self with_x_ref external_reference]. exact E.
    + intros i Hi. cbn [self with_x_ref x_ref]. apply get_set_other. lia.
    + intros p' [= <-]. reflexivity.
  - rewrite (synchronize_null s E).
    repeat (match goal with |- _ /\ _ => split end);
      try assumption; try reflexivity.
    intros p' [=].
Qed.

(** C9: [external_reference] is null by default, and on an instance whose
    [external_reference] is null [synchronize()] changes nothing, whatever
    the memory holds. *)
Theorem cartpole_synchronize_null_noop (s : state OCP)
    (Hnull : external_reference (self s) = None) :
  external_reference init = None
  /\ synchronize s = s
  /\ forall m' : mem, synchronize (mkState (self s) m') = mkState (self s) m'.
Proof.
  split; [reflexivity |]. split.
  - apply synchronize_null, Hnull.
  - intros m'. apply synchronize_null. exact Hnull.
Qed.

Lemma cartpole_synchronize_null_noop_witness :
  external_reference init = None
  /\ synchronize (mkState init (fun _ => 1)) = mkState init (fun _ => 1)
  /\ forall m' : mem, synchronize (mkState init m') = mkState init m'.
Proof.
  apply (cartpole_synchronize_null_noop (mkState init (fun _ => 1))).
  reflexivity.
Defined.

End CartpoleSynchronize.

(** ** The size-checked overloads of the hexacopter problem *)

Section HexacopterChecked.

Import Hexacopter.

(** C2, at the documented sizes: with [x], [lmd] and [hx] of size
    [nx = 12] and [uc] of size [nuc = 6], the size-checked [eval_hx]
    throws [std::invalid_argument] -- its last test compares [hx.size()]
    with [nuc] -- and writes nothing. *)
Theorem hexacopter_eval_hx_rejects_nx_output
    (t : Scalar) (x uc lmd hx : Vec) (s : state OCP)
    (Hx : size x = 12%Z) (Huc : size uc = 6%Z)
    (Hlmd : size lmd = 12%Z) (Hhx : size hx = 12%Z) :
  Checked.eval_hx t x uc lmd hx s =
  Thrown (invalid_argument "[OCP]: hx.size() must be 12") s.
Proof.
  unfold Checked.eval_hx. rewrite Hx, Huc, Hlmd, Hhx. reflexivity.
Qed.

Lemma hexacopter_eval_hx_rejects_nx_output_witness :
  Checked.eval_hx 0 (mkVec 0 12) (mkVec 12 6) (mkVec 18 12) (mkVec 30 12)
                  (mkState init (fun _ => 0)) =
  Thrown (invalid_argument "[OCP]: hx.size() must be 12")
         (mkState init (fun _ => 0)).
Proof.
  apply (hexacopter_eval_hx_rejects_nx_output 0 (mkVec 0 12) (mkVec 12 6)
           (mkVec 18 12) (mkVec 30 12)); reflexivity.
Defined.

(** The test the code makes: [eval_hx] returns normally exactly when the
    sizes are 12, 6, 12 and 6. *)
Lemma hexacopter_eval_hx_accepts
    (t : Scalar) (x uc lmd hx : Vec) (s : state OCP) :
  (exists s', Checked.eval_hx t x uc lmd hx s = Normal s')
  <-> (size x = 12 /\ size uc = 6 /\ size lmd = 12 /\ size hx = 6)%Z.
Proof.
  unfold Checked.eval_hx, nuc, nx, nu, nc. cbn [Z.add].
  destruct (Z.eqb_spec (size x) 12) as [Hx | Hx]; cbn [negb].
  2: { split; [intros [s' [=]] | intros (? & _); contradiction]. }
  destruct (Z.eqb_spec (size uc) 6) as [Hu | Hu]; cbn [negb].
  2: { split; [intros [s' [=]] | intros (_ & ? & _); contradiction]. }
  destruct (Z.eqb_spec (size lmd) 12) as [Hl | Hl]; cbn [negb].
  2: { split; [intros [s' [=]] | intros (_ & _ & ? & _); contradiction]. }
  destruct (Z.eqb_spec (size hx) 6) as [Hh | Hh]; cbn [negb].
  2: { split; [intros [s' [=]] | intros (_ & _ & _ & ?); contradiction]. }
  split; [tauto | intros _; eexists; reflexivity].
Qed.

(** C5: with [x], [u], [dx] of sizes [nx], [nu], [nx] the size-checked
    [eval_f] returns normally and leaves exactly the state the raw-pointer
    [eval_f] produces on the three buffers; with any other sizes it throws
    [std::invalid_argument] with the state untouched. *)
Theorem hexacopter_eval_f_checked_refines
    (t : Scalar) (x u dx : Vec) (s : state OCP) :
  ((size x = nx /\ size u = nu /\ size dx = nx)%Z ->
   Checked.eval_f t x u dx s = Normal (eval_f t (data x) (data u) (data dx) s))
  /\ (~ (size x = nx /\ size u = nu /\ size dx = nx)%Z ->
      exists what, Checked.eval_f t x u dx s = Thrown (invalid_argument what) s).
Proof.
  unfold Checked.eval_f.
  destruct (Z.eqb_spec (size x) nx) as [Hx | Hx]; cbn [negb].
  2: { split; [intros (? & _); contradiction | intros _; eexists; reflexivity]. }
  destruct (Z.eqb_spec (size u) nu) as [Hu | Hu]; cbn [negb].
  2: { split; [intros (_ & ? & _); contradiction
              | intros _; eexists; reflexivity]. }
  destruct (Z.eqb_spec (size dx) nx) as [Hd | Hd]; cbn [negb].
  2: { split; [intros (_ & _ & ?); contradiction
              | intros _; eexists; reflexivity]. }
  split; [reflexivity | intros Hn; exfalso; apply Hn; tauto].
Qed.

Lemma hexacopter_eval_f_checked_refines_witness :
  Checked.eval_f 0 (mkVec 0 12) (mkVec 12 6) (mkVec 18 12)
                 (mkState init (fun _ => 0)) =
  Normal (eval_f 0 0 12 18 (mkState init (fun _ => 0)))
  /\ exists what,
       Checked.eval_f 0 (mkVec 0 12) (mkVec 12 6) (mkVec 18 11)
                      (mkState init (fun _ => 0)) =
       Thrown (invalid_argument what) (mkState init (fun _ => 0)).
Proof.
  split.
  - apply (proj1 (hexacopter_eval_f_checked_refines 0 (mkVec 0 12)
                    (mkVec 12 6) (mkVec 18 12) (mkState init (fun _ => 0)))).
    repeat split.
  - apply (proj2 (hexacopter_eval_f_checked_refines 0 (mkVec 0 12)
                    (mkVec 12 6) (mkVec 18 11) (mkState init (fun _ => 0)))).
    cbn. intros (_ & _ & H). discriminate H.
Defined.

End HexacopterChecked.

(** ** Memory and straight-line bodies *)

Lemma load_store_same (m : mem) (p : ptr) (i : Z) (v : Scalar) (q : ptr) (j : Z) :
  (q + j = p + i)%Z -> load (store m p i v) q j = v.
Proof. intros E. unfold load, store. rewrite E, Z.eqb_refl. reflexivity. Qed.

Lemma load_store_other (m : mem) (p : ptr) (i : Z) (v : Scalar) (q : ptr) (j : Z) :
  (q + j <> p + i)%Z -> load (store m p i v) q j = load m q j.
Proof.
  intros E. unfold load, store.
  destruct (Z.eqb_spec (q + j) (p + i)); [contradiction | reflexivity].
Qed.

Lemma store_other (m : mem) (p : ptr) (i : Z) (v : Scalar) (a : Z) :
  (a <> p + i)%Z -> store m p i v a = m a.
Proof.
  intros E. unfold store.
  destruct (Z.eqb_spec a (p + i)); [contradiction | reflexivity].
Qed.

Lemma load_agree (inp : Z -> Prop) (m m' : mem) (p : ptr) (i : Z) :
  agree inp m m' -> inp (p + i)%Z -> load m p i = load m' p i.
Proof. intros H Hi. unfold load. apply H, Hi. Qed.

(** A body touches no cell outside its output array. *)
Lemma exec_frame (n : Z) (out : ptr) (body : list assign) :
  writes_within n body ->
  forall (m : mem) (a : Z), ~ range out n a -> exec out body m a = m a.
Proof.
  unfold exec. induction 1 as [| st body Hst _ IH]; intros m a Ha.
  - reflexivity.
  - cbn [fold_left]. rewrite IH by exact Ha. unfold exec1.
    apply store_other. unfold range in Ha. lia.
Qed.

(** When the output array is apart from the cells the right-hand sides
    read, these see the initial contents throughout. *)
Lemma exec_exec_at (inp : Z -> Prop) (n : Z) (out : ptr) (m0 : mem)
    (body : list assign) :
  writes_within n body ->
  Forall (fun a : assign => reads_only inp (snd a)) body ->
  (forall a : Z, inp a -> ~ range out n a) ->
  forall m : mem, agree inp m m0 -> exec out body m = exec_at m0 out body m.
Proof.
  intros Hw Hr Hd. unfold exec, exec_at.
  induction body as [| st body IH]; intros m Hm; [reflexivity |].
  inversion Hw as [| ? ? Hst Hw']; subst.
  inversion Hr as [| ? ? Hrst Hr']; subst.
  cbn [fold_left]. unfold exec1 at 2.
  rewrite (Hrst m m0 Hm).
  apply (IH Hw' Hr').
  intros a Ha. rewrite store_other; [apply Hm, Ha |].
  specialize (Hd a Ha). unfold range in Hd. lia.
Qed.

(** Two bodies with the same indices and, statement by statement, the same
    value leave the same contents in every index they write. *)
Lemma exec_at_same (m1 m2 : mem) (out1 out2 : ptr) (b1 b2 : list assign) :
  Forall2 (fun a1 a2 : assign => fst a1 = fst a2 /\ snd a1 m1 = snd a2 m2)
          b1 b2 ->
  forall (ma mb : mem) (i : Z),
    In i (map fst b1) \/ load ma out1 i = load mb out2 i ->
    load (exec_at m1 out1 b1 ma) out1 i = load (exec_at m2 out2 b2 mb) out2 i.
Proof.
  unfold exec_at.
  induction 1 as [| a1 a2 b1 b2 [Hi Hv] _ IH]; intros ma mb i H.
  - cbn. destruct H as [[] | H]; exact H.
  - cbn [fold_left]. apply IH.
    destruct (Z.eq_dec i (fst a1)) as [-> | Hne].
    + right. rewrite load_store_same by reflexivity.
      rewrite load_store_same by (rewrite Hi; reflexivity). exact Hv.
    + destruct H as [[Hin | Hin] | H].
      * symmetry in Hin. contradiction.
      * left. exact Hin.
      * right. rewrite !load_store_other by lia. exact H.
Qed.

Lemma exec_deterministic (inp1 inp2 : Z -> Prop) (n : Z) (out1 out2 : ptr)
    (b1 b2 : list assign) (m1 m2 : mem) :
  writes_within n b1 -> writes_within n b2 ->
  Forall (fun a : assign => reads_only inp1 (snd a)) b1 ->
  Forall (fun a : assign => reads_only inp2 (snd a)) b2 ->
  (forall a : Z, inp1 a -> ~ range out1 n a) ->
  (forall a : Z, inp2 a -> ~ range out2 n a) ->
  Forall2 (fun a1 a2 : assign => fst a1 = fst a2 /\ snd a1 m1 = snd a2 m2)
          b1 b2 ->
  (forall i : Z, (0 <= i < n)%Z -> In i (map fst b1)) ->
  same_contents (exec out1 b1 m1) out1 (exec out2 b2 m2) out2 n.
Proof.
  intros W1 W2 R1 R2 D1 D2 HF Hc i Hi.
  rewrite (exec_exec_at inp1 n out1 m1 b1 W1 R1 D1 m1) by (intros a _; reflexivity).
  rewrite (exec_exec_at inp2 n out2 m2 b2 W2 R2 D2 m2) by (intros a _; reflexivity).
  apply (exec_at_same m1 m2 out1 out2 b1 b2 HF). left. apply Hc, Hi.
Qed.

(** ** Purity of the evaluators *)

(** An input array apart from the output array is not written. *)
Lemma frame_keeps_input (n : Z) (out : ptr) (body : list assign) (m : mem)
    (p : ptr) (k : Z) :
  writes_within n body -> apart out n p k ->
  same_contents (exec out body m) p m p k.
Proof.
  intros Hw Ha i Hi. unfold load. apply (exec_frame n out body Hw).
  unfold range, apart in *. lia.
Qed.

Section Intro.

Context {O : Type}.

Lemma pure1_intro (B : O -> Scalar -> ptr -> mem -> list assign) (n1 nout : Z) :
  (forall o t x m0, writes_within nout (B o t x m0)) ->
  (forall o t x m0 i, (0 <= i < nout)%Z -> In i (map fst (B o t x m0))) ->
  (forall o t x m0,
     Forall (fun a : assign => reads_only (range x n1) (snd a)) (B o t x m0)) ->
  (forall o t x m1 x' m2,
     same_contents m1 x m2 x' n1 ->
     Forall2 (fun a1 a2 : assign => fst a1 = fst a2 /\ snd a1 m1 = snd a2 m2)
             (B o t x m1) (B o t x' m2)) ->
  pure1 (fun t x out s =>
           mkState (self s) (exec out (B (self s) t x (heap s)) (heap s)))
        n1 nout.
Proof.
  intros HW HC HR HE. split; [| split].
  - intros t x out s. split; [reflexivity |]. cbn [heap].
    intros a Ha. apply (exec_frame nout); [apply HW | exact Ha].
  - intros t x out s Hx. cbn [heap]. apply (frame_keeps_input nout); [apply HW | exact Hx].
  - intros t x out s x' out' s' Hs Hx D D'. cbn [heap self]. rewrite <- Hs.
    apply (exec_deterministic (range x n1) (range x' n1));
      try apply HW; try apply HR; try apply HC.
    + unfold range, apart in *. intros a; lia.
    + unfold range, apart in *. intros a; lia.
    + apply HE, Hx.
Qed.

Lemma pure2_intro (B : O -> Scalar -> ptr -> ptr -> mem -> list assign)
    (n1 n2 nout : Z) :
  (forall o t x u m0, writes_within nout (B o t x u m0)) ->
  (forall o t x u m0 i, (0 <= i < nout)%Z -> In i (map fst (B o t x u m0))) ->
  (forall o t x u m0,
     Forall (fun a : assign =>
               reads_only (fun c => range x n1 c \/ range u n2 c) (snd a))
            (B o t x u m0)) ->
  (forall o t x u m1 x' u' m2,
     same_contents m1 x m2 x' n1 -> same_contents m1 u m2 u' n2 ->
     Forall2 (fun a1 a2 : assign => fst a1 = fst a2 /\ snd a1 m1 = snd a2 m2)
             (B o t x u m1) (B o t x' u' m2)) ->
  pure2 (fun t x u out s =>
           mkState (self s) (exec out (B (self s) t x u (heap s)) (heap s)))
        n1 n2 nout.
Proof.
  intros HW HC HR HE. split; [| split].
  - intros t x u out s. split; [reflexivity |]. cbn [heap].
    intros a Ha. apply (exec_frame nout); [apply HW | exact Ha].
  - intros t x u out s Hx Hu. cbn [heap].
    split; apply (frame_keeps_input nout); try apply HW; assumption.
  - intros t x u out s x' u' out' s' Hs Hx Hu D1 D2 D1' D2'.
    cbn [heap self]. rewrite <- Hs.
    apply (exec_deterministic (fun c => range x n1 c \/ range u n2 c)
                              (fun c => range x' n1 c \/ range u' n2 c));
      try apply HW; try apply HR; try apply HC.
    + unfold range, apart in *. intros a; lia.
    + unfold range, apart in *. intros a; lia.
    + apply HE; assumption.
Qed.

Lemma pure3_intro (B : O -> Scalar -> ptr -> ptr -> ptr -> mem -> list assign)
    (n1 n2 n3 nout : Z) :
  (forall o t x u lmd m0, writes_within nout (B o t x u lmd m0)) ->
  (forall o t x u lmd m0 i,
     (0 <= i < nout)%Z -> In i (map fst (B o t x u lmd m0))) ->
  (forall o t x u lmd m0,
     Forall (fun a : assign =>
               reads_only (fun c => range x n1 c \/ range u n2 c
                                    \/ range lmd n3 c) (snd a))
            (B o t x u lmd m0)) ->
  (forall o t x u lmd m1 x' u' lmd' m2,
     same_contents m1 x m2 x' n1 -> same_contents m1 u m2 u' n2 ->
     same_contents m1 lmd m2 lmd' n3 ->
     Forall2 (fun a1 a2 : assign => fst a1 = fst a2 /\ snd a1 m1 = snd a2 m2)
             (B o t x u lmd m1) (B o t x' u' lmd' m2)) ->
  pure3 (fun t x u lmd out s =>
           mkState (self s)
                   (exec out (B (self s) t x u lmd (heap s)) (heap s)))
        n1 n2 n3 nout.
Proof.
  intros HW HC HR HE. split; [| split].
  - intros t x u lmd out s. split; [reflexivity |]. cbn [heap].
    intros a Ha. apply (exec_frame nout); [apply HW | exact Ha].
  - intros t x u lmd out s Hx Hu Hl. cbn [heap].
    repeat split; apply (frame_keeps_input nout); try apply HW; assumption.
  - intros t x u lmd out s x' u' lmd' out' s' Hs Hx Hu Hl D1 D2 D3 D1' D2' D3'.
    cbn [heap self]. rewrite <- Hs.
    apply (exec_deterministic
             (fun c => range x n1 c \/ range u n2 c \/ range lmd n3 c)
             (fun c => range x' n1 c \/ range u' n2 c \/ range lmd' n3 c));
      try apply HW; try apply HR; try apply HC.
    + unfold range, apart in *. intros a; lia.
    + unfold range, apart in *. intros a; lia.
    + apply HE; assumption.
Qed.

End Intro.

(** The four facts [pure1_intro] .. [pure3_intro] ask of a body, for the
    list of statements it is. *)
Ltac each_stmt tac :=
  repeat first [ apply Forall_nil | apply Forall_cons; [ tac | ] ].

Ltac each_pair tac :=
  repeat first [ apply Forall2_nil | apply Forall2_cons; [ tac | ] ].

Ltac body_writes :=
  intros; cbv zeta; unfold writes_within; each_stmt ltac:(cbn [fst]; lia).

Ltac body_covers :=
  intros; cbv zeta; cbn [map fst In]; lia.

Ltac body_reads :=
  intros; cbv zeta;
  each_stmt ltac:(
    let ma := fresh "ma" in
    let mb := fresh "mb" in
    let Hag := fresh "Hag" in
    cbn [snd]; intros ma mb Hag;
    repeat match goal with
           | |- context [load ma ?p ?i] =>
               rewrite (load_agree _ ma mb p i Hag) by (unfold range; lia)
           end;
    reflexivity).

Ltac body_same :=
  intros; cbv zeta;
  each_pair ltac:(
    split; [ reflexivity | ];
    cbn [snd];
    match goal with
    | |- _ = _ =>
        repeat match goal with
               | H : same_contents ?m1 ?p _ _ _ |- context [load ?m1 ?p ?i] =>
                   rewrite (H i) by lia
               end
    end;
    reflexivity).

Section CartpoleEvaluators.

Import Cartpole.

Lemma cartpole_eval_f_pure : pure2 eval_f 4 1 4.
Proof.
  apply (pure2_intro eval_f_body); unfold eval_f_body.
  - body_writes.
  - body_covers.
  - body_reads.
  - body_same.
Qed.

Lemma cartpole_eval_phix_pure : pure1 eval_phix 4 4.
Proof.
  apply (pure1_intro eval_phix_body); unfold eval_phix_body.
  - body_writes.
  - body_covers.
  - body_reads.
  - body_same.
Qed.

Lemma cartpole_eval_hx_pure : pure3 eval_hx 4 1 4 4.
Proof.
  apply (pure3_intro eval_hx_body); unfold eval_hx_body.
  - body_writes.
  - body_covers.
  - body_reads.
  - body_same.
Qed.

Lemma cartpole_eval_hu_pure : pure3 eval_hu 4 1 4 1.
Proof.
  apply (pure3_intro eval_hu_body); unfold eval_hu_body.
  - body_writes.
  - body_covers.
  - body_reads.
  - body_same.
Qed.

End CartpoleEvaluators.

Section HexacopterEvaluators.

Import Hexacopter.

Lemma hexacopter_eval_f_pure : pure2 eval_f 12 6 12.
Proof.
  apply (pure2_intro eval_f_body); unfold eval_f_body.
  - body_writes.
  - body_covers.
  - body_reads.
  - body_same.
Qed.

Lemma hexacopter_eval_phix_pure : pure1 eval_phix 12 12.
Proof.
  apply (pure1_intro eval_phix_body); unfold eval_phix_body.
  - body_writes.
  - body_covers.
  - body_reads.
  - body_same.
Qed.

Lemma hexacopter_eval_hx_pure : pure3 eval_hx 12 6 12 12.
Proof.
  apply (pure3_intro eval_hx_body); unfold eval_hx_body.
  - body_writes.
  - body_covers.
  - body_reads.
  - body_same.
Qed.

Lemma hexacopter_eval_hu_pure : pure3 eval_hu 12 6 12 6.
Proof.
  apply (pure3_intro eval_hu_body); unfold eval_hu_body.
  - body_writes.
  - body_covers.
  - body_reads.
  - body_same.
Qed.

End HexacopterEvaluators.

(** Loads through stores at known addresses. *)
Ltac mem_norm :=
  repeat match goal with
         | |- context [load (store ?m ?p ?i ?v) ?q ?j] =>
             first [ rewrite (load_store_same m p i v q j) by lia
                   | rewrite (load_store_other m p i v q j) by lia ]
         end.

(** ** Purity of the evaluators, the object in memory *)

Lemma array_at_agree (n : nat) (M M' : mem) (p : ptr) (i : Z) :
  (forall j : Z, (i <= j < i + Z.of_nat n)%Z -> load M' p j = load M p j) ->
  array_at n M' p i = array_at n M p i.
Proof.
  revert i. induction n as [| n IH]; intros i H; [reflexivity |].
  cbn [array_at]. rewrite (H i) by lia. rewrite IH; [reflexivity |].
  intros j Hj. apply H. lia.
Qed.

Lemma cartpole_object_at_agree (this : ptr) (M M' : mem) :
  (forall c : Z, range this CartpoleObject.sizeof c -> M' c = M c) ->
  CartpoleObject.object_at this M' = CartpoleObject.object_at this M.
Proof.
  intros H.
  assert (HL : forall j : Z, (0 <= j < 20)%Z -> load M' this j = load M this j).
  { intros j Hj. unfold load. apply H.
    unfold range, CartpoleObject.sizeof. lia. }
  unfold CartpoleObject.object_at.
  rewrite !(array_at_agree _ M M') by (intros j Hj; apply HL; cbn in Hj; lia).
  rewrite !HL by lia. reflexivity.
Qed.

Lemma hexacopter_object_at_agree (this : ptr) (M M' : mem) :
  (forall c : Z, range this HexacopterObject.sizeof c -> M' c = M c) ->
  HexacopterObject.object_at this M' = HexacopterObject.object_at this M.
Proof.
  intros H.
  assert (HL : forall j : Z, (0 <= j < 57)%Z -> load M' this j = load M this j).
  { intros j Hj. unfold load. apply H.
    unfold range, HexacopterObject.sizeof. lia. }
  unfold HexacopterObject.object_at.
  rewrite !(array_at_agree _ M M') by (intros j Hj; apply HL; cbn in Hj; lia).
  rewrite !HL by lia. reflexivity.
Qed.

(** Two bodies whose statements have the same value in every memory that
    differs from [M0] in the output array only, run from such a memory,
    leave the same memory. *)
Lemma exec_same_outside (n : Z) (out : ptr) (M0 : mem) (b1 b2 : list assign) :
  writes_within n b1 ->
  Forall2 (fun a1 a2 : assign =>
             fst a1 = fst a2
             /\ forall M : mem,
                  (forall c : Z, ~ range out n c -> M c = M0 c) ->
                  snd a1 M = snd a2 M) b1 b2 ->
  forall M : mem,
    (forall c : Z, ~ range out n c -> M c = M0 c) ->
    exec out b1 M = exec out b2 M.
Proof.
  intros Hw HF. unfold exec.
  induction HF as [| a1 a2 b1 b2 [Hi Hv] _ IH]; intros M HM; [reflexivity |].
  inversion Hw as [| ? ? Hst Hw']; subst.
  cbn [fold_left]. unfold exec1 at 2 4. rewrite <- Hi, (Hv M HM).
  apply (IH Hw'). intros c Hc. rewrite store_other; [apply HM, Hc |].
  unfold range in Hc. lia.
Qed.

Section PureAt.

Context {O : Type} (sz : Z) (obj : ptr -> mem -> O).

Hypothesis obj_agree :
  forall (this : ptr) (M M' : mem),
    (forall c : Z, range this sz c -> M' c = M c) -> obj this M' = obj this M.

Lemma obj_kept (this out : ptr) (nout : Z) (M M' : mem) :
  apart out nout this sz ->
  (forall a : Z, ~ range out nout a -> M' a = M a) ->
  obj this M' = obj this M.
Proof.
  intros Ha HF. apply obj_agree. intros c Hc. apply HF.
  unfold range, apart in *. lia.
Qed.

Lemma pure_at1_intro (Eold : Scalar -> ptr -> ptr -> state O -> state O)
    (E : ptr -> Scalar -> ptr -> ptr -> mem -> mem) (n1 nout : Z) :
  pure1 Eold n1 nout ->
  (forall this t x out M, apart out nout this sz ->
     E this t x out M = heap (Eold t x out (mkState (obj this M) M))) ->
  pure_at1 sz obj E n1 nout.
Proof.
  intros (HW & HK & HD) HE. split.
  - intros this t x out M Ha. rewrite (HE this t x out M Ha).
    destruct (HW t x out (mkState (obj this M) M)) as (_ & HF). cbn [heap] in HF.
    split; [exact HF |]. split; [exact (obj_kept this out nout _ _ Ha HF) |].
    intros Hx. exact (HK t x out (mkState (obj this M) M) Hx).
  - intros this t x out M this' x' out' M' Ho Hx A1 A2 A1' A2'.
    rewrite (HE this t x out M A1), (HE this' t x' out' M' A1').
    apply HD; cbn [self heap]; assumption.
Qed.

Lemma pure_at2_intro
    (Eold : Scalar -> ptr -> ptr -> ptr -> state O -> state O)
    (E : ptr -> Scalar -> ptr -> ptr -> ptr -> mem -> mem) (n1 n2 nout : Z) :
  pure2 Eold n1 n2 nout ->
  (forall this t x u out M, apart out nout this sz ->
     E this t x u out M = heap (Eold t x u out (mkState (obj this M) M))) ->
  pure_at2 sz obj E n1 n2 nout.
Proof.
  intros (HW & HK & HD) HE. split.
  - intros this t x u out M Ha. rewrite (HE this t x u out M Ha).
    destruct (HW t x u out (mkState (obj this M) M)) as (_ & HF).
    cbn [heap] in HF.
    split; [exact HF |]. split; [exact (obj_kept this out nout _ _ Ha HF) |].
    split; intros Hp; unfold same_contents, load; intros i Hi; apply HF;
      unfold range, apart in *; lia.
  - intros this t x u out M this' x' u' out' M' Ho Hx Hu A1 A2 A3 A1' A2' A3'.
    rewrite (HE this t x u out M A1), (HE this' t x' u' out' M' A1').
    apply HD; cbn [self heap]; assumption.
Qed.

Lemma pure_at3_intro
    (Eold : Scalar -> ptr -> ptr -> ptr -> ptr -> state O -> state O)
    (E : ptr -> Scalar -> ptr -> ptr -> ptr -> ptr -> mem -> mem)
    (n1 n2 n3 nout : Z) :
  pure3 Eold n1 n2 n3 nout ->
  (forall this t x u lmd out M, apart out nout this sz ->
     E this t x u lmd out M =
     heap (Eold t x u lmd out (mkState (obj this M) M))) ->
  pure_at3 sz obj E n1 n2 n3 nout.
Proof.
  intros (HW & HK & HD) HE. split.
  - intros this t x u lmd out M Ha. rewrite (HE this t x u lmd out M Ha).
    destruct (HW t x u lmd out (mkState (obj this M) M)) as (_ & HF).
    cbn [heap] in HF.
    split; [exact HF |]. split; [exact (obj_kept this out nout _ _ Ha HF) |].
    split; [| split]; intros Hp; unfold same_contents, load; intros i Hi;
      apply HF; unfold range, apart in *; lia.
  - intros this t x u lmd out M this' x' u' lmd' out' M' Ho Hx Hu Hl
      A1 A2 A3 A4 A1' A2' A3' A4'.
    rewrite (HE this t x u lmd out M A1), (HE this' t x' u' lmd' out' M' A1').
    apply HD; cbn [self heap]; assumption.
Qed.

End PureAt.

(** A body that reads the members through [this] does what the body on
    the members' values does, as long as the output array is apart from
    the object: [agree] is the lemma that the members are then read as
    they were. *)
Ltac body_members agree :=
  intros; cbv zeta;
  each_pair ltac:(
    split; [ reflexivity | ];
    let M' := fresh "M'" in
    let HM := fresh "HM" in
    cbn [snd]; intros M' HM;
    rewrite ?(agree _ _ M')
      by (intros c Hc; apply HM; unfold range, apart in *; cbn in *; lia);
    reflexivity).

Lemma cartpole_object_eval_f (this : ptr) (t : Scalar) (x u dx : ptr) (M : mem) :
  apart dx 4 this CartpoleObject.sizeof ->
  CartpoleObject.eval_f this t x u dx M =
  heap (Cartpole.eval_f t x u dx
          (mkState (CartpoleObject.object_at this M) M)).
Proof.
  intros Ha. unfold CartpoleObject.eval_f, Cartpole.eval_f. cbn [heap self].
  change (Cartpole.eval_f_body (CartpoleObject.object_at this M) t x u M)
    with (CartpoleObject.eval_f_stmts
            (fun _ => CartpoleObject.object_at this M) t x u M).
  apply (exec_same_outside 4 dx M); [| | intros c _; reflexivity];
    unfold CartpoleObject.eval_f_stmts.
  - body_writes.
  - body_members cartpole_object_at_agree.
Qed.

Lemma cartpole_object_eval_phix (this : ptr) (t : Scalar) (x phix : ptr) (M : mem) :
  apart phix 4 this CartpoleObject.sizeof ->
  CartpoleObject.eval_phix this t x phix M =
  heap (Cartpole.eval_phix t x phix
          (mkState (CartpoleObject.object_at this M) M)).
Proof.
  intros Ha. unfold CartpoleObject.eval_phix, Cartpole.eval_phix. cbn [heap self].
  change (Cartpole.eval_phix_body (CartpoleObject.object_at this M) t x M)
    with (CartpoleObject.eval_phix_stmts
            (fun _ => CartpoleObject.object_at this M) t x M).
  apply (exec_same_outside 4 phix M); [| | intros c _; reflexivity];
    unfold CartpoleObject.eval_phix_stmts.
  - body_writes.
  - body_members cartpole_object_at_agree.
Qed.

Lemma cartpole_object_eval_hx (this : ptr) (t : Scalar) (x u lmd hx : ptr) (M : mem) :
  apart hx 4 this CartpoleObject.sizeof ->
  CartpoleObject.eval_hx this t x u lmd hx M =
  heap (Cartpole.eval_hx t x u lmd hx
          (mkState (CartpoleObject.object_at this M) M)).
Proof.
  intros Ha. unfold CartpoleObject.eval_hx, Cartpole.eval_hx. cbn [heap self].
  change (Cartpole.eval_hx_body (CartpoleObject.object_at this M) t x u lmd M)
    with (CartpoleObject.eval_hx_stmts
            (fun _ => CartpoleObject.object_at this M) t x u lmd M).
  apply (exec_same_outside 4 hx M); [| | intros c _; reflexivity];
    unfold CartpoleObject.eval_hx_stmts.
  - body_writes.
  - body_members cartpole_object_at_agree.
Qed.

Lemma cartpole_object_eval_hu (this : ptr) (t : Scalar) (x u lmd hu : ptr) (M : mem) :
  apart hu 1 this CartpoleObject.sizeof ->
  CartpoleObject.eval_hu this t x u lmd hu M =
  heap (Cartpole.eval_hu t x u lmd hu
          (mkState (CartpoleObject.object_at this M) M)).
Proof.
  intros Ha. unfold CartpoleObject.eval_hu, Cartpole.eval_hu. cbn [heap self].
  change (Cartpole.eval_hu_body (CartpoleObject.object_at this M) t x u lmd M)
    with (CartpoleObject.eval_hu_stmts
            (fun _ => CartpoleObject.object_at this M) t x u lmd M).
  apply (exec_same_outside 1 hu M); [| | intros c _; reflexivity];
    unfold CartpoleObject.eval_hu_stmts.
  - body_writes.
  - body_members cartpole_object_at_agree.
Qed.

Lemma hexacopter_object_eval_f (this : ptr) (t : Scalar) (x u dx : ptr) (M : mem) :
  apart dx 12 this HexacopterObject.sizeof ->
  HexacopterObject.eval_f this t x u dx M =
  heap (Hexacopter.eval_f t x u dx
          (mkState (HexacopterObject.object_at this M) M)).
Proof.
  intros Ha. unfold HexacopterObject.eval_f, Hexacopter.eval_f. cbn [heap self].
  change (Hexacopter.eval_f_body (HexacopterObject.object_at this M) t x u M)
    with (HexacopterObject.eval_f_stmts
            (fun _ => HexacopterObject.object_at this M) t x u M).
  apply (exec_same_outside 12 dx M); [| | intros c _; reflexivity];
    unfold HexacopterObject.eval_f_stmts.
  - body_writes.
  - body_members hexacopter_object_at_agree.
Qed.

Lemma hexacopter_object_eval_phix (this : ptr) (t : Scalar) (x phix : ptr) (M : mem) :
  apart phix 12 this HexacopterObject.sizeof ->
  HexacopterObject.eval_phix this t x phix M =
  heap (Hexacopter.eval_phix t x phix
          (mkState (HexacopterObject.object_at this M) M)).
Proof.
  intros Ha. unfold HexacopterObject.eval_phix, Hexacopter.eval_phix. cbn [heap self].
  change (Hexacopter.eval_phix_body (HexacopterObject.object_at this M) t x M)
    with (HexacopterObject.eval_phix_stmts
            (fun _ => HexacopterObject.object_at this M) t x M).
  apply (exec_same_outside 12 phix M); [| | intros c _; reflexivity];
    unfold HexacopterObject.eval_phix_stmts.
  - body_writes.
  - body_members hexacopter_object_at_agree.
Qed.

Lemma hexacopter_object_eval_hx (this : ptr) (t : Scalar) (x u lmd hx : ptr) (M : mem) :
  apart hx 12 this HexacopterObject.sizeof ->
  HexacopterObject.eval_hx this t x u lmd hx M =
  heap (Hexacopter.eval_hx t x u lmd hx
          (mkState (HexacopterObject.object_at this M) M)).
Proof.
  intros Ha. unfold HexacopterObject.eval_hx, Hexacopter.eval_hx. cbn [heap self].
  change (Hexacopter.eval_hx_body (HexacopterObject.object_at this M) t x u lmd M)
    with (HexacopterObject.eval_hx_stmts
            (fun _ => HexacopterObject.object_at this M) t x u lmd M).
  apply (exec_same_outside 12 hx M); [| | intros c _; reflexivity];
    unfold HexacopterObject.eval_hx_stmts.
  - body_writes.
  - body_members hexacopter_object_at_agree.
Qed.

Lemma hexacopter_object_eval_hu (this : ptr) (t : Scalar) (x u lmd hu : ptr) (M : mem) :
  apart hu 6 this HexacopterObject.sizeof ->
  HexacopterObject.eval_hu this t x u lmd hu M =
  heap (Hexacopter.eval_hu t x u lmd hu
          (mkState (HexacopterObject.object_at this M) M)).
Proof.
  intros Ha. unfold HexacopterObject.eval_hu, Hexacopter.eval_hu. cbn [heap self].
  change (Hexacopter.eval_hu_body (HexacopterObject.object_at this M) t x u lmd M)
    with (HexacopterObject.eval_hu_stmts
            (fun _ => HexacopterObject.object_at this M) t x u lmd M).
  apply (exec_same_outside 6 hu M); [| | intros c _; reflexivity];
    unfold HexacopterObject.eval_hu_stmts.
  - body_writes.
  - body_members hexacopter_object_at_agree.
Qed.

(** The scalars of [crossed_heap] at known addresses. *)
Ltac known_cells :=
  unfold load, crossed_heap;
  repeat match goal with
         | |- context [Z.eqb ?a ?b] =>
             let v := eval compute in (Z.eqb a b) in
             change (Z.eqb a b) with v
         end;
  cbv beta iota.

(** C8, as the evaluators are written: nothing keeps the output array
    apart from an input array or from the object.  With the cart-pole
    object at 100 in [crossed_heap], [eval_f(t, x, u, x)] overwrites its
    input [x[0]]; [eval_hx] on the same members and the same input
    contents leaves another [hx[2]] when [hx] is the array [lmd] than when
    it is an array of its own; and [eval_f(t, x, u, q.data())] overwrites
    the member [q[0]]. *)
Lemma evaluators_unguarded_output :
  load (CartpoleObject.eval_f 100 0 0 4 0 crossed_heap) 0 0
  <> load crossed_heap 0 0
  /\ load (CartpoleObject.eval_hx 100 0 0 4 5 9 crossed_heap) 9 2
     <> load (CartpoleObject.eval_hx 100 0 0 4 5 5 crossed_heap) 5 2
  /\ get (Cartpole.q (CartpoleObject.object_at 100
                        (CartpoleObject.eval_f 100 0 0 4 104 crossed_heap))) 0
     <> get (Cartpole.q (CartpoleObject.object_at 100 crossed_heap)) 0.
Proof.
  split; [| split].
  - unfold CartpoleObject.eval_f, CartpoleObject.eval_f_stmts, exec.
    cbv zeta. cbn [fold_left]. unfold exec1. cbn [fst snd].
    mem_norm. known_cells. lra.
  - unfold CartpoleObject.eval_hx, CartpoleObject.eval_hx_stmts, exec.
    cbv zeta. cbn [fold_left]. unfold exec1. cbn [fst snd].
    mem_norm.
    unfold CartpoleObject.object_at.
    cbn [Cartpole.q Cartpole.x_ref array_at get fst snd].
    mem_norm. known_cells. lra.
  - unfold CartpoleObject.object_at.
    cbn [Cartpole.q array_at get fst snd].
    unfold CartpoleObject.eval_f, CartpoleObject.eval_f_stmts, exec.
    cbv zeta. cbn [fold_left]. unfold exec1. cbn [fst snd].
    mem_norm. known_cells. lra.
Qed.

(** C8, amended: for both example problems each of the raw-pointer
    [eval_f], [eval_phix], [eval_hx], [eval_hu], called with an output
    array that shares no scalar with the object, writes only its output
    array, so that every member of the object and every input array apart
    from the output array keeps its contents; and two calls with the same
    [t], the same members and the same input contents, each with its output
    array apart from its object and its input arrays, leave the same output
    contents.  The size-checked [eval_f], [eval_phix] and [eval_hu] of the
    hexacopter problem throw with nothing written, or find the documented
    sizes and make that raw-pointer call.  The size-checked [eval_hx] is
    not among them: it returns only for an [hx] of [nuc = 6] scalars, and
    the call it then makes assigns twelve. *)
Theorem evaluators_pure_when_output_kept_apart :
  pure_at2 CartpoleObject.sizeof CartpoleObject.object_at
           CartpoleObject.eval_f 4 1 4
  /\ pure_at1 CartpoleObject.sizeof CartpoleObject.object_at
              CartpoleObject.eval_phix 4 4
  /\ pure_at3 CartpoleObject.sizeof CartpoleObject.object_at
              CartpoleObject.eval_hx 4 1 4 4
  /\ pure_at3 CartpoleObject.sizeof CartpoleObject.object_at
              CartpoleObject.eval_hu 4 1 4 1
  /\ pure_at2 HexacopterObject.sizeof HexacopterObject.object_at
              HexacopterObject.eval_f 12 6 12
  /\ pure_at1 HexacopterObject.sizeof HexacopterObject.object_at
              HexacopterObject.eval_phix 12 12
  /\ pure_at3 HexacopterObject.sizeof HexacopterObject.object_at
              HexacopterObject.eval_hx 12 6 12 12
  /\ pure_at3 HexacopterObject.sizeof HexacopterObject.object_at
              HexacopterObject.eval_hu 12 6 12 6
  /\ (forall (this : ptr) (t : Scalar) (x u dx : Vec) (M : mem),
        checked_call (HexacopterObject.Checked.eval_f this t x u dx M) M
          (size x = 12 /\ size u = 6 /\ size dx = 12)%Z
          (HexacopterObject.eval_f this t (data x) (data u) (data dx) M))
  /\ (forall (this : ptr) (t : Scalar) (x phix : Vec) (M : mem),
        checked_call (HexacopterObject.Checked.eval_phix this t x phix M) M
          (size x = 12 /\ size phix = 12)%Z
          (HexacopterObject.eval_phix this t (data x) (data phix) M))
  /\ (forall (this : ptr) (t : Scalar) (x uc lmd hu : Vec) (M : mem),
        checked_call (HexacopterObject.Checked.eval_hu this t x uc lmd hu M) M
          (size x = 12 /\ size uc = 6 /\ size lmd = 12 /\ size hu = 6)%Z
          (HexacopterObject.eval_hu this t (data x) (data uc) (data lmd)
                                    (data hu) M))
  /\ (forall (this : ptr) (t : Scalar) (x uc lmd hx : Vec) (M : mem),
        checked_call (HexacopterObject.Checked.eval_hx this t x uc lmd hx M) M
          (size x = 12 /\ size uc = 6 /\ size lmd = 12 /\ size hx = 6)%Z
          (HexacopterObject.eval_hx this t (data x) (data uc) (data lmd)
                                    (data hx) M)).
Proof.
  split; [exact (pure_at2_intro _ _ cartpole_object_at_agree _ _ _ _ _
                   cartpole_eval_f_pure cartpole_object_eval_f) |].
  split; [exact (pure_at1_intro _ _ cartpole_object_at_agree _ _ _ _
                   cartpole_eval_phix_pure cartpole_object_eval_phix) |].
  split; [exact (pure_at3_intro _ _ cartpole_object_at_agree _ _ _ _ _ _
                   cartpole_eval_hx_pure cartpole_object_eval_hx) |].
  split; [exact (pure_at3_intro _ _ cartpole_object_at_agree _ _ _ _ _ _
                   cartpole_eval_hu_pure cartpole_object_eval_hu) |].
  split; [exact (pure_at2_intro _ _ hexacopter_object_at_agree _ _ _ _ _
                   hexacopter_eval_f_pure hexacopter_object_eval_f) |].
  split; [exact (pure_at1_intro _ _ hexacopter_object_at_agree _ _ _ _
                   hexacopter_eval_phix_pure hexacopter_object_eval_phix) |].
  split; [exact (pure_at3_intro _ _ hexacopter_object_at_agree _ _ _ _ _ _
                   hexacopter_eval_hx_pure hexacopter_object_eval_hx) |].
  split; [exact (pure_at3_intro _ _ hexacopter_object_at_agree _ _ _ _ _ _
                   hexacopter_eval_hu_pure hexacopter_object_eval_hu) |].
  unfold checked_call, HexacopterObject.Checked.eval_f,
    HexacopterObject.Checked.eval_phix, HexacopterObject.Checked.eval_hu,
    HexacopterObject.Checked.eval_hx,
    Hexacopter.nuc, Hexacopter.nx, Hexacopter.nu, Hexacopter.nc.
  cbn [Z.add].
  split; [| split; [| split]]; intros;
    repeat match goal with
           | |- context [negb (Z.eqb ?a ?b)] =>
               destruct (Z.eqb_spec a b); cbn [negb];
               [ | left; eexists; reflexivity ]
           end;
    right; (split; [ repeat split; assumption | reflexivity ]).
Qed.

(** * Further properties of the horizon schedule *)

Section HorizonGrowth.

Import Horizon.

(** X1: a horizon built with [alpha > 0] never shrinks as [t] grows, over
    all of time and not only after the anchor; it never exceeds [Tf]; and
    at or before the anchor [t0] it is not positive. *)
Theorem horizon_growing_over_all_time (Tf alpha t0 : Scalar) (h : Horizon)
    (Hc : ctor Tf alpha t0 = inr h) (Ha : 0 < alpha) :
  (forall t1 t2 : Scalar, t1 <= t2 -> T h t1 <= T h t2)
  /\ (forall t : Scalar, T h t <= Tf)
  /\ (forall t : Scalar, t <= t0 -> T h t <= 0).
Proof.
  apply ctor_inv in Hc as (HTf & HT & Hal & Ht0 & Hflag).
  assert (Hg : time_varying_length_ h = true)
    by (rewrite Hflag; apply Rltb_true, Ha).
  assert (HT' : forall t, T h t = Tf * (1 - exp (- alpha * (t - t0)))).
  { intros t. rewrite T_growing by exact Hg. now rewrite HT, Hal, Ht0. }
  split; [| split].
  - intros t1 t2 Hle. rewrite !HT'.
    assert (He : exp (- alpha * (t2 - t0)) <= exp (- alpha * (t1 - t0)))
      by (apply exp_le_mono; nra).
    nra.
  - intros t. rewrite HT'. pose proof (exp_pos (- alpha * (t - t0))). nra.
  - intros t Ht. rewrite HT'.
    assert (He : 1 <= exp (- alpha * (t - t0))).
    { rewrite <- exp_0. apply exp_le_mono. nra. }
    nra.
Qed.

Lemma horizon_growing_over_all_time_witness :
  (forall t1 t2 : Scalar, t1 <= t2 ->
     T (mkHorizon 1 1 0 (Rltb 0 1)) t1 <= T (mkHorizon 1 1 0 (Rltb 0 1)) t2)
  /\ (forall t : Scalar, T (mkHorizon 1 1 0 (Rltb 0 1)) t <= 1)
  /\ (forall t : Scalar, t <= 0 -> T (mkHorizon 1 1 0 (Rltb 0 1)) t <= 0).
Proof.
  apply (horizon_growing_over_all_time 1 1 0); [apply ctor_ok; lra | lra].
Defined.

(** X2: a horizon built with [alpha > 0] comes as close to [Tf] as one
    likes, for all late enough [t]. *)
Theorem horizon_tends_to_Tf (Tf alpha t0 : Scalar) (h : Horizon)
    (Hc : ctor Tf alpha t0 = inr h) (Ha : 0 < alpha) :
  forall eps : R, 0 < eps ->
    exists t1 : R, forall t : R, t1 < t -> Rabs (T h t - Tf) < eps.
Proof.
  apply ctor_inv in Hc as (HTf & HT & Hal & Ht0 & Hflag).
  assert (Hg : time_varying_length_ h = true)
    by (rewrite Hflag; apply Rltb_true, Ha).
  intros eps Heps.
  assert (Hq : 0 < eps / Tf) by (apply Rdiv_lt_0_compat; assumption).
  exists (t0 - ln (eps / Tf) / alpha). intros t Ht.
  rewrite T_growing by exact Hg. rewrite HT, Hal, Ht0.
  assert (Hlt : - alpha * (t - t0) < ln (eps / Tf)).
  { assert (Hm : alpha * (t0 - ln (eps / Tf) / alpha) < alpha * t)
      by (apply Rmult_lt_compat_l; assumption).
    replace (alpha * (t0 - ln (eps / Tf) / alpha))
      with (alpha * t0 - ln (eps / Tf)) in Hm by (field; lra).
    lra. }
  apply exp_increasing in Hlt. rewrite (exp_ln _ Hq) in Hlt.
  pose proof (exp_pos (- alpha * (t - t0))) as Hp.
  assert (Hb : Tf * exp (- alpha * (t - t0)) < eps).
  { apply (Rmult_lt_compat_l Tf) in Hlt; [| exact HTf].
    replace (Tf * (eps / Tf)) with eps in Hlt by (field; lra). exact Hlt. }
  apply Rabs_def1; nra.
Qed.

Lemma horizon_tends_to_Tf_witness :
  exists t1 : R, forall t : R, t1 < t ->
    Rabs (T (mkHorizon 1 1 0 (Rltb 0 1)) t - 1) < 1 / 100.
Proof.
  apply (horizon_tends_to_Tf 1 1 0 (mkHorizon 1 1 0 (Rltb 0 1)));
    [apply ctor_ok; lra | lra | lra].
Defined.

(** X3: the length depends on the time elapsed since the anchor only:
    after [reset(t1)] the horizon at [t1 + d] is what it was at
    [t0_ + d]; a second [reset] overrides the first; and a horizon of
    fixed length is not affected by [reset]. *)
Theorem horizon_reset_shifts (h : Horizon) (t1 : Scalar) :
  (forall d : Scalar, T (reset h t1) (t1 + d) = T h (t0_ h + d))
  /\ (forall t2 : Scalar, reset (reset h t1) t2 = reset h t2)
  /\ (time_varying_length_ h = false ->
      forall t : Scalar, T (reset h t1) t = T h t).
Proof.
  split; [| split].
  - intros d. unfold T, reset. cbn.
    destruct (time_varying_length_ h); [| reflexivity].
    replace (t1 + d - t1) with (t0_ h + d - t0_ h) by lra. reflexivity.
  - intros t2. reflexivity.
  - intros Hf t. now rewrite !T_fixed.
Qed.

End HorizonGrowth.

(** * Reading off what a body leaves *)

(** A body that assigns no index twice leaves in [out[i]] the value of
    the statement for [i]. *)
Lemma exec_at_untouched (m0 : mem) (out : ptr) (body : list assign)
    (m : mem) (i : Z) :
  ~ In i (map fst body) ->
  load (exec_at m0 out body m) out i = load m out i.
Proof.
  unfold exec_at. revert m.
  induction body as [| st body IH]; intros m Hi; [reflexivity |].
  cbn [fold_left]. cbn [map In] in Hi.
  rewrite IH by tauto. apply load_store_other. lia.
Qed.

Lemma exec_at_nth (m0 : mem) (out : ptr) (body : list assign) (m : mem)
    (k : nat) (i : Z) (e : mem -> Scalar) :
  NoDup (map fst body) -> nth_error body k = Some (i, e) ->
  load (exec_at m0 out body m) out i = e m0.
Proof.
  revert m k. induction body as [| st body IH]; intros m k Hnd Hk.
  - destruct k; discriminate.
  - cbn [map] in Hnd. inversion Hnd as [| ? ? Hnotin Hnd']; subst.
    destruct k as [| k].
    + injection Hk as ->. unfold exec_at. cbn [fold_left].
      change (fold_left _ body ?m') with (exec_at m0 out body m').
      rewrite exec_at_untouched by exact Hnotin.
      apply load_store_same. reflexivity.
    + unfold exec_at. cbn [fold_left]. apply (IH _ k Hnd' Hk).
Qed.

Ltac body_nodup :=
  cbv zeta; cbn [map fst];
  repeat (apply NoDup_cons; [ cbn [In]; lia | ]); apply NoDup_nil.

(** The value of [out[i]], for a known [i], from the statement for [i]:
    [nd] proves that the body assigns no index twice. *)
Tactic Notation "out_nth" uconstr(nd) :=
  repeat match goal with
         | |- context [load (exec_at ?m0 ?out ?body ?m) ?out ?i] =>
             let k := eval compute in (Z.to_nat i) in
             rewrite (exec_at_nth m0 out body m k i _ nd eq_refl)
         end.

(** An identity of the field of scalars, its denominators being among
    the hypotheses. *)
Ltac scalar_field :=
  apply Rminus_diag_uniq; unfold Rminus, Rdiv;
  first [ ring | field; repeat split; assumption ].

(** * Further properties of the cart-pole problem *)

(** The value a body leaves in [out[i]], for a known [i]. *)
Ltac out_value B :=
  unfold B, exec_at; cbv zeta; cbn [fold_left fst snd];
  unfold apart in *; mem_norm.

(** An identity of the field of scalars. *)
Ltac scalar_ring := unfold Scalar in *; unfold Rdiv; ring.

(** [Z.to_nat] of a known index. *)
Ltac nat_index :=
  repeat match goal with
         | |- context [Z.to_nat ?k] =>
             let n := eval compute in (Z.to_nat k) in
             change (Z.to_nat k) with n
         end.

(** One goal per index [a <= i < b], with [i] replaced by its value. *)
Ltac cases_below i :=
  match goal with
  | H : (?a <= i < ?b)%Z |- _ =>
      first
        [ exfalso; lia
        | let a' := eval compute in (a + 1)%Z in
          destruct (Z.eq_dec i a) as [-> | ?];
          [ clear H
          | assert (a' <= i < b)%Z by lia; clear H; cases_below i ] ]
  end.

(** Known scalars of one array, by index. *)
Ltac known_loads m p H :=
  repeat match goal with
         | |- context [load m p ?i] => rewrite (H i) by lia
         end.

Section CartpoleFacts.

Import Cartpole.

Lemma cartpole_eval_f_at (t : Scalar) (x u dx : ptr) (s : state OCP) :
  apart dx 4 x 4 -> apart dx 4 u 1 ->
  heap (eval_f t x u dx s) =
  exec_at (heap s) dx (eval_f_body (self s) t x u (heap s)) (heap s).
Proof.
  intros Hx Hu. unfold eval_f. cbn [heap].
  apply (exec_exec_at (fun c => range x 4 c \/ range u 1 c) 4);
    unfold eval_f_body.
  - body_writes.
  - body_reads.
  - unfold range, apart in *. intros a. lia.
  - intros a _. reflexivity.
Qed.

Lemma cartpole_eval_phix_at (t : Scalar) (x phix : ptr) (s : state OCP) :
  apart phix 4 x 4 ->
  heap (eval_phix t x phix s) =
  exec_at (heap s) phix (eval_phix_body (self s) t x (heap s)) (heap s).
Proof.
  intros Hx. unfold eval_phix. cbn [heap].
  apply (exec_exec_at (range x 4) 4); unfold eval_phix_body.
  - body_writes.
  - body_reads.
  - unfold range, apart in *. intros a. lia.
  - intros a _. reflexivity.
Qed.

Lemma cartpole_eval_hx_at (t : Scalar) (x u lmd hx : ptr) (s : state OCP) :
  apart hx 4 x 4 -> apart hx 4 u 1 -> apart hx 4 lmd 4 ->
  heap (eval_hx t x u lmd hx s) =
  exec_at (heap s) hx (eval_hx_body (self s) t x u lmd (heap s)) (heap s).
Proof.
  intros Hx Hu Hl. unfold eval_hx. cbn [heap].
  apply (exec_exec_at
           (fun c => range x 4 c \/ range u 1 c \/ range lmd 4 c) 4);
    unfold eval_hx_body.
  - body_writes.
  - body_reads.
  - unfold range, apart in *. intros a. lia.
  - intros a _. reflexivity.
Qed.

Lemma cartpole_eval_hu_at (t : Scalar) (x u lmd hu : ptr) (s : state OCP) :
  apart hu 1 x 4 -> apart hu 1 u 1 -> apart hu 1 lmd 4 ->
  heap (eval_hu t x u lmd hu s) =
  exec_at (heap s) hu (eval_hu_body (self s) t x u lmd (heap s)) (heap s).
Proof.
  intros Hx Hu Hl. unfold eval_hu. cbn [heap].
  apply (exec_exec_at
           (fun c => range x 4 c \/ range u 1 c \/ range lmd 4 c) 1);
    unfold eval_hu_body.
  - body_writes.
  - body_reads.
  - unfold range, apart in *. intros a. lia.
  - intros a _. reflexivity.
Qed.

(** X4: [synchronize()] twice in a row is [synchronize()] once. *)
Theorem cartpole_synchronize_idempotent (s : state OCP) :
  synchronize (synchronize s) = synchronize s.
Proof.
  destruct (external_reference (self s)) as [p |] eqn:E.
  - rewrite (synchronize_attached s p E).
    rewrite (synchronize_attached _ p) by exact E.
    reflexivity.
  - now rewrite !(synchronize_null s E).
Qed.

(** X5: once [synchronize()] has run with an attached reference, the
    first entries of [eval_phix] and [eval_hx] measure the cart position
    against the referenced [cart_position]. *)
Theorem cartpole_cost_tracks_reference
    (t : Scalar) (x u lmd out : ptr) (s : state OCP) (p : ptr)
    (Hp : external_reference (self s) = Some p)
    (Hx : apart out 4 x 4) (Hu : apart out 4 u 1) (Hl : apart out 4 lmd 4) :
  load (heap (eval_phix t x out (synchronize s))) out 0 =
    get (q_terminal (self s)) 0 * (load (heap s) x 0 - load (heap s) p 0)
  /\ load (heap (eval_hx t x u lmd out (synchronize s))) out 0 =
       get (q (self s)) 0 * (load (heap s) x 0 - load (heap s) p 0).
Proof.
  rewrite (synchronize_attached s p Hp). split.
  - rewrite cartpole_eval_phix_at by assumption.
    out_value eval_phix_body. cbn [heap self with_x_ref q_terminal x_ref].
    rewrite get_set_same by lia. lra.
  - rewrite cartpole_eval_hx_at by assumption.
    out_value eval_hx_body. cbn [heap self with_x_ref q x_ref].
    rewrite get_set_same by lia. lra.
Qed.

Lemma cartpole_cost_tracks_reference_witness :
  load (heap (eval_phix 0 0 10
                (synchronize (mkState (attach init 20) (fun _ => 1))))) 10 0 =
    get (q_terminal (attach init 20)) 0 * (1 - 1)
  /\ load (heap (eval_hx 0 0 4 5 10
                   (synchronize (mkState (attach init 20) (fun _ => 1))))) 10 0 =
       get (q (attach init 20)) 0 * (1 - 1).
Proof.
  apply (cartpole_cost_tracks_reference 0 0 4 5 10
           (mkState (attach init 20) (fun _ => 1)) 20);
    [reflexivity | unfold apart; lia ..].
Defined.

Lemma weighted_gap_zero (w a b : R) :
  w <> 0 -> (1 / 2 * w * (2 * a - 2 * b) = 0 <-> a = b).
Proof.
  intros Hw. split.
  - intros H. assert (H' : w * (a - b) = 0) by lra.
    apply Rmult_integral in H' as [H' | H']; [contradiction | lra].
  - intros ->. lra.
Qed.

(** X6: with non-zero terminal weights, [eval_phix] writes the zero
    vector exactly when the state is the reference [x_ref]. *)
Theorem cartpole_eval_phix_zero_iff
    (t : Scalar) (x phix : ptr) (s : state OCP)
    (Hx : apart phix 4 x 4)
    (Hw : get (q_terminal (self s)) 0 <> 0 /\ get (q_terminal (self s)) 1 <> 0
          /\ get (q_terminal (self s)) 2 <> 0
          /\ get (q_terminal (self s)) 3 <> 0) :
  (load (heap (eval_phix t x phix s)) phix 0 = 0
   /\ load (heap (eval_phix t x phix s)) phix 1 = 0
   /\ load (heap (eval_phix t x phix s)) phix 2 = 0
   /\ load (heap (eval_phix t x phix s)) phix 3 = 0)
  <-> (load (heap s) x 0 = get (x_ref (self s)) 0
       /\ load (heap s) x 1 = get (x_ref (self s)) 1
       /\ load (heap s) x 2 = get (x_ref (self s)) 2
       /\ load (heap s) x 3 = get (x_ref (self s)) 3).
Proof.
  destruct Hw as (H0 & H1 & H2 & H3).
  rewrite cartpole_eval_phix_at by assumption.
  out_value eval_phix_body.
  rewrite (weighted_gap_zero _ _ _ H0), (weighted_gap_zero _ _ _ H1),
    (weighted_gap_zero _ _ _ H2), (weighted_gap_zero _ _ _ H3).
  reflexivity.
Qed.

Lemma cartpole_eval_phix_zero_iff_witness :
  (load (heap (eval_phix 0 0 4 (mkState init (fun _ => 0)))) 4 0 = 0
   /\ load (heap (eval_phix 0 0 4 (mkState init (fun _ => 0)))) 4 1 = 0
   /\ load (heap (eval_phix 0 0 4 (mkState init (fun _ => 0)))) 4 2 = 0
   /\ load (heap (eval_phix 0 0 4 (mkState init (fun _ => 0)))) 4 3 = 0)
  <-> (0 = get (x_ref init) 0 /\ 0 = get (x_ref init) 1
       /\ 0 = get (x_ref init) 2 /\ 0 = get (x_ref init) 3).
Proof.
  apply (cartpole_eval_phix_zero_iff 0 0 4 (mkState init (fun _ => 0))).
  - unfold apart. lia.
  - cbn. repeat split; lra.
Defined.

(** X7: a cart-pole at rest with the pole hanging or upright
    ([sin (x[1]) = 0], no velocities) and no force stays at rest: with a
    non-zero cart mass and pole length, [eval_f] writes the zero vector. *)
Theorem cartpole_rest_is_equilibrium
    (t : Scalar) (x u dx : ptr) (s : state OCP)
    (Hx : apart dx 4 x 4) (Hu : apart dx 4 u 1)
    (Hmass : m_c (self s) <> 0) (Hlen : l (self s) <> 0)
    (Hangle : sin (load (heap s) x 1) = 0)
    (Hv : load (heap s) x 2 = 0) (Hw : load (heap s) x 3 = 0)
    (Hforce : load (heap s) u 0 = 0) :
  forall i : Z, (0 <= i < 4)%Z -> load (heap (eval_f t x u dx s)) dx i = 0.
Proof.
  intros i Hi. rewrite cartpole_eval_f_at by assumption.
  cases_below i; out_value eval_f_body;
    rewrite ?Hangle, ?Hv, ?Hw, ?Hforce; scalar_ring.
Qed.

Lemma cartpole_rest_is_equilibrium_witness :
  load (heap (eval_f 0 0 4 5 (mkState init (fun _ => 0)))) 5 2 = 0
  /\ load (heap (eval_f 0 0 4 5 (mkState init (fun _ => 0)))) 5 3 = 0.
Proof.
  split;
    apply (cartpole_rest_is_equilibrium 0 0 4 5 (mkState init (fun _ => 0)));
    try (unfold apart; lia); try reflexivity; try (cbn; lra);
    exact sin_0.
Defined.

(** X8: [eval_hu] is the input gradient of a Hamiltonian built on
    [eval_f]: [hu[0]] is [r[0] * u[0]] plus the costate times the change of
    [eval_f] under a unit raise of the force (no denominator being
    zero). *)
Theorem cartpole_eval_hu_matches_eval_f
    (t : Scalar) (x u lmd dx hu : ptr) (s : state OCP)
    (Hdx : apart dx 4 x 4) (Hdu : apart dx 4 u 1)
    (Hhx : apart hu 1 x 4) (Hhu : apart hu 1 u 1) (Hhl : apart hu 1 lmd 4)
    (Hux : apart u 1 x 4)
    (Hden : m_c (self s) + m_p (self s) * sin (load (heap s) x 1) ^ 2 <> 0)
    (Hlen : l (self s) <> 0) :
  load (heap (eval_hu t x u lmd hu s)) hu 0 =
  get (r (self s)) 0 * load (heap s) u 0
  + sum_to 4 (fun i =>
                load (heap s) lmd i
                * (load (heap (eval_f t x u dx (bump u 0 s))) dx i
                   - load (heap (eval_f t x u dx s)) dx i)).
Proof.
  rewrite cartpole_eval_hu_at by assumption.
  cbn [sum_to Z.of_nat Pos.of_succ_nat Pos.succ].
  rewrite !cartpole_eval_f_at by assumption.
  unfold bump. cbn [heap self].
  out_value eval_hu_body. out_value eval_f_body.
  scalar_ring.
Qed.

Lemma cartpole_eval_hu_matches_eval_f_witness :
  load (heap (eval_hu 0 0 4 5 20 (mkState init (fun _ => 1)))) 20 0 =
  get (r init) 0 * 1
  + sum_to 4 (fun i =>
                1 * (load (heap (eval_f 0 0 4 10
                                   (bump 4 0 (mkState init (fun _ => 1))))) 10 i
                     - load (heap (eval_f 0 0 4 10
                                     (mkState init (fun _ => 1)))) 10 i)).
Proof.
  apply (cartpole_eval_hu_matches_eval_f 0 0 4 5 10 20
           (mkState init (fun _ => 1)));
    try (unfold apart; lia).
  - cbn [self heap init m_c m_p].
    pose proof (pow2_ge_0 (sin (load (fun _ => 1) 0 1))). lra.
  - cbn. lra.
Defined.

(** X9: the cart-pole dynamics know neither the time nor where the cart
    is: two calls of [eval_f] that agree on [x[1..3]] and [u] leave the
    same [dx], whatever [t] and [x[0]] are. *)
Theorem cartpole_eval_f_ignores_time_and_position
    (t t' : Scalar) (x u dx x' u' dx' : ptr) (s s' : state OCP)
    (Hs : self s = self s')
    (Hx : forall i : Z, (1 <= i < 4)%Z ->
            load (heap s) x i = load (heap s') x' i)
    (Hu : load (heap s) u 0 = load (heap s') u' 0)
    (D1 : apart dx 4 x 4) (D2 : apart dx 4 u 1)
    (D1' : apart dx' 4 x' 4) (D2' : apart dx' 4 u' 1) :
  same_contents (heap (eval_f t x u dx s)) dx
                (heap (eval_f t' x' u' dx' s')) dx' 4.
Proof.
  intros i Hi. rewrite !cartpole_eval_f_at by assumption. rewrite <- Hs.
  pose proof (Hx 1%Z ltac:(lia)) as H1.
  pose proof (Hx 2%Z ltac:(lia)) as H2.
  pose proof (Hx 3%Z ltac:(lia)) as H3.
  cases_below i; out_value eval_f_body;
    rewrite ?H1, ?H2, ?H3, ?Hu; reflexivity.
Qed.

Lemma cartpole_eval_f_ignores_time_and_position_witness :
  same_contents
    (heap (eval_f 0 0 4 5 (mkState init (fun _ => 0)))) 5
    (heap (eval_f 1 0 4 5 (mkState init (fun a => if Z.eqb a 0 then 7 else 0))))
    5 4.
Proof.
  apply (cartpole_eval_f_ignores_time_and_position 0 1 0 4 5 0 4 5
           (mkState init (fun _ => 0))
           (mkState init (fun a => if Z.eqb a 0 then 7 else 0)));
    try (unfold apart; lia); try reflexivity.
  intros i Hi. unfold load. cbn [heap].
  destruct (Z.eqb_spec (0 + i) 0) as [E | E]; [lia | reflexivity].
Defined.

End CartpoleFacts.

(** * Further properties of the hexacopter problem *)

Section HexacopterFacts.

Import Hexacopter.

Lemma hexacopter_eval_f_at (t : Scalar) (x u dx : ptr) (s : state OCP) :
  apart dx 12 x 12 -> apart dx 12 u 6 ->
  heap (eval_f t x u dx s) =
  exec_at (heap s) dx (eval_f_body (self s) t x u (heap s)) (heap s).
Proof.
  intros Hx Hu. unfold eval_f. cbn [heap].
  apply (exec_exec_at (fun c => range x 12 c \/ range u 6 c) 12);
    unfold eval_f_body.
  - body_writes.
  - body_reads.
  - unfold range, apart in *. intros a. lia.
  - intros a _. reflexivity.
Qed.

Lemma hexacopter_eval_phix_at (t : Scalar) (x phix : ptr) (s : state OCP) :
  apart phix 12 x 12 ->
  heap (eval_phix t x phix s) =
  exec_at (heap s) phix (eval_phix_body (self s) t x (heap s)) (heap s).
Proof.
  intros Hx. unfold eval_phix. cbn [heap].
  apply (exec_exec_at (range x 12) 12); unfold eval_phix_body.
  - body_writes.
  - body_reads.
  - unfold range, apart in *. intros a. lia.
  - intros a _. reflexivity.
Qed.

Lemma hexacopter_eval_hx_at (t : Scalar) (x u lmd hx : ptr) (s : state OCP) :
  apart hx 12 x 12 -> apart hx 12 u 6 -> apart hx 12 lmd 12 ->
  heap (eval_hx t x u lmd hx s) =
  exec_at (heap s) hx (eval_hx_body (self s) t x u lmd (heap s)) (heap s).
Proof.
  intros Hx Hu Hl. unfold eval_hx. cbn [heap].
  apply (exec_exec_at
           (fun c => range x 12 c \/ range u 6 c \/ range lmd 12 c) 12);
    unfold eval_hx_body.
  - body_writes.
  - body_reads.
  - unfold range, apart in *. intros a. lia.
  - intros a _. reflexivity.
Qed.

Lemma hexacopter_eval_hu_at (t : Scalar) (x u lmd hu : ptr) (s : state OCP) :
  apart hu 6 x 12 -> apart hu 6 u 6 -> apart hu 6 lmd 12 ->
  heap (eval_hu t x u lmd hu s) =
  exec_at (heap s) hu (eval_hu_body (self s) t x u lmd (heap s)) (heap s).
Proof.
  intros Hx Hu Hl. unfold eval_hu. cbn [heap].
  apply (exec_exec_at
           (fun c => range x 12 c \/ range u 6 c \/ range lmd 12 c) 6);
    unfold eval_hu_body.
  - body_writes.
  - body_reads.
  - unfold range, apart in *. intros a. lia.
  - intros a _. reflexivity.
Qed.

Lemma hexacopter_eval_f_body_nodup o t x u m0 :
  NoDup (map fst (eval_f_body o t x u m0)).
Proof. unfold eval_f_body. body_nodup. Qed.

Lemma hexacopter_eval_hx_body_nodup o t x u lmd m0 :
  NoDup (map fst (eval_hx_body o t x u lmd m0)).
Proof. unfold eval_hx_body. body_nodup. Qed.

Lemma hexacopter_eval_hu_body_nodup o t x u lmd m0 :
  NoDup (map fst (eval_hu_body o t x u lmd m0)).
Proof. unfold eval_hu_body. body_nodup. Qed.

(** X10: level thrust is vertical.  With non-zero mass, zero roll
    [x[3]] and zero pitch [x[4]], whatever the yaw, the rates and the
    position, [eval_f] writes no horizontal acceleration ([dx[6]] and
    [dx[7]] are 0) and the vertical acceleration [dx[8]] is the sum of the
    six thrusts over the mass, less [g]. *)
Theorem hexacopter_level_thrust_is_vertical
    (t : Scalar) (x u dx : ptr) (s : state OCP)
    (Hx : apart dx 12 x 12) (Hu : apart dx 12 u 6)
    (Hm : m (self s) <> 0)
    (Hroll : load (heap s) x 3 = 0) (Hpitch : load (heap s) x 4 = 0) :
  load (heap (eval_f t x u dx s)) dx 6 = 0
  /\ load (heap (eval_f t x u dx s)) dx 7 = 0
  /\ load (heap (eval_f t x u dx s)) dx 8 =
     (load (heap s) u 1 + load (heap s) u 3 + load (heap s) u 5
      + (load (heap s) u 0 + load (heap s) u 2 + load (heap s) u 4))
     / m (self s) - g (self s).
Proof.
  rewrite !hexacopter_eval_f_at by (assumption || lia).
  split; [| split]; out_value eval_f_body;
    rewrite ?Hroll, ?Hpitch, ?sin_0, ?cos_0; unfold Scalar in *;
    field; assumption.
Qed.

Lemma hexacopter_level_thrust_is_vertical_witness :
  load (heap (eval_f 0 0 12 18
                (mkState init (fun a => if (a =? 12)%Z then 9 else 0))))
       18 6 = 0
  /\ load (heap (eval_f 0 0 12 18
                   (mkState init (fun a => if (a =? 12)%Z then 9 else 0))))
          18 7 = 0
  /\ load (heap (eval_f 0 0 12 18
                   (mkState init (fun a => if (a =? 12)%Z then 9 else 0))))
          18 8 =
     (load (fun a => if (a =? 12)%Z then 9 else 0) 12 1
      + load (fun a => if (a =? 12)%Z then 9 else 0) 12 3
      + load (fun a => if (a =? 12)%Z then 9 else 0) 12 5
      + (load (fun a => if (a =? 12)%Z then 9 else 0) 12 0
         + load (fun a => if (a =? 12)%Z then 9 else 0) 12 2
         + load (fun a => if (a =? 12)%Z then 9 else 0) 12 4))
     / m init - g init.
Proof.
  apply (hexacopter_level_thrust_is_vertical 0 0 12 18
           (mkState init (fun a => if (a =? 12)%Z then 9 else 0)));
    try (unfold apart; lia).
  - cbn [self init m]. lra.
  - reflexivity.
  - reflexivity.
Defined.

(** X11: [eval_hu] is the input gradient of a Hamiltonian built on
    [eval_f]: for each rotor [j], [hu[j]] is [r[j] * (u[j] - m * g / 6)]
    -- the distance to the hover thrust -- plus the costate times the
    change of [eval_f] under a unit raise of [u[j]] (mass and inertias not
    being zero). *)
Theorem hexacopter_eval_hu_matches_eval_f
    (t : Scalar) (x u lmd dx hu : ptr) (s : state OCP)
    (Hdx : apart dx 12 x 12) (Hdu : apart dx 12 u 6)
    (Hhx : apart hu 6 x 12) (Hhu : apart hu 6 u 6) (Hhl : apart hu 6 lmd 12)
    (Hux : apart u 6 x 12)
    (Hm : m (self s) <> 0)
    (HI : Ixx (self s) <> 0 /\ Iyy (self s) <> 0 /\ Izz (self s) <> 0) :
  forall j : Z, (0 <= j < 6)%Z ->
    load (heap (eval_hu t x u lmd hu s)) hu j =
    get (r (self s)) (Z.to_nat j)
    * (load (heap s) u j - m (self s) * g (self s) / 6)
    + sum_to 12 (fun i =>
                   load (heap s) lmd i
                   * (load (heap (eval_f t x u dx (bump u j s))) dx i
                      - load (heap (eval_f t x u dx s)) dx i)).
Proof.
  intros j Hj. destruct HI as (HIx & HIy & HIz).
  rewrite hexacopter_eval_hu_at by assumption.
  cbn [sum_to Z.of_nat Pos.of_succ_nat Pos.succ].
  rewrite !hexacopter_eval_f_at by assumption.
  unfold bump. cbn [heap self]. unfold apart in *.
  cases_below j; nat_index;
    out_nth (hexacopter_eval_hu_body_nodup _ _ _ _ _ _);
    out_nth (hexacopter_eval_f_body_nodup _ _ _ _ _); mem_norm;
    scalar_field.
Qed.

Lemma hexacopter_eval_hu_matches_eval_f_witness :
  load (heap (eval_hu 0 0 12 18 42 (mkState init (fun _ => 1)))) 42 2 =
  get (r init) (Z.to_nat 2) * (1 - m init * g init / 6)
  + sum_to 12 (fun i =>
                 1 * (load (heap (eval_f 0 0 12 30
                                    (bump 12 2 (mkState init (fun _ => 1)))))
                           30 i
                      - load (heap (eval_f 0 0 12 30
                                      (mkState init (fun _ => 1)))) 30 i)).
Proof.
  apply (hexacopter_eval_hu_matches_eval_f 0 0 12 18 30 42
           (mkState init (fun _ => 1)));
    try (unfold apart; lia).
  - cbn [self init m]. lra.
  - cbn [self init Ixx Iyy Izz]. repeat split; lra.
Defined.





(** X13: with a zero costate and the stage weights equal to the terminal
    weights (as they are by default), [eval_hx] writes what [eval_phix]
    writes (mass and inertias not being zero). *)
Theorem hexacopter_eval_hx_zero_costate
    (t : Scalar) (x u lmd out : ptr) (s : state OCP)
    (Hx : apart out 12 x 12) (Hu : apart out 12 u 6)
    (Hl : apart out 12 lmd 12)
    (Hm : m (self s) <> 0)
    (HI : Ixx (self s) <> 0 /\ Iyy (self s) <> 0 /\ Izz (self s) <> 0)
    (Hq : q (self s) = q_terminal (self s))
    (Hzero : forall i : Z, (0 <= i < 12)%Z -> load (heap s) lmd i = 0) :
  same_contents (heap (eval_hx t x u lmd out s)) out
                (heap (eval_phix t x out s)) out 12.
Proof.
  intros i Hi. destruct HI as (HIx & HIy & HIz).
  rewrite hexacopter_eval_hx_at, hexacopter_eval_phix_at by assumption.
  cases_below i; out_value eval_hx_body; out_value eval_phix_body;
    rewrite Hq; known_loads (heap s) lmd Hzero; unfold Scalar in *; field;
    repeat split; assumption.
Qed.

Lemma hexacopter_eval_hx_zero_costate_witness :
  same_contents (heap (eval_hx 0 0 12 18 30 (mkState init (fun _ => 0)))) 30
                (heap (eval_phix 0 0 30 (mkState init (fun _ => 0)))) 30 12.
Proof.
  apply (hexacopter_eval_hx_zero_costate 0 0 12 18 30
           (mkState init (fun _ => 0)));
    try (unfold apart; lia); try reflexivity.
  - cbn [self init m]. lra.
  - cbn [self init Ixx Iyy Izz]. repeat split; lra.
Defined.

(** X14: the hexacopter dynamics know neither the time nor the position:
    two calls of [eval_f] that agree on [x[3..11]] and on [u] leave the
    same [dx], whatever [t] and [x[0..2]] are. *)
Theorem hexacopter_eval_f_ignores_time_and_position
    (t t' : Scalar) (x u dx x' u' dx' : ptr) (s s' : state OCP)
    (Hs : self s = self s')
    (Hx : forall i : Z, (3 <= i < 12)%Z ->
            load (heap s) x i = load (heap s') x' i)
    (Hu : forall j : Z, (0 <= j < 6)%Z ->
            load (heap s) u j = load (heap s') u' j)
    (D1 : apart dx 12 x 12) (D2 : apart dx 12 u 6)
    (D1' : apart dx' 12 x' 12) (D2' : apart dx' 12 u' 6) :
  same_contents (heap (eval_f t x u dx s)) dx
                (heap (eval_f t' x' u' dx' s')) dx' 12.
Proof.
  intros i Hi. rewrite !hexacopter_eval_f_at by assumption. rewrite <- Hs.
  cases_below i; out_value eval_f_body;
    known_loads (heap s) x Hx; known_loads (heap s) u Hu; reflexivity.
Qed.

Lemma hexacopter_eval_f_ignores_time_and_position_witness :
  same_contents
    (heap (eval_f 0 0 12 18 (mkState init (fun _ => 0)))) 18
    (heap (eval_f 1 0 12 18
             (mkState init (fun a => if (a <? 3)%Z then 7 else 0))))
    18 12.
Proof.
  apply (hexacopter_eval_f_ignores_time_and_position 0 1 0 12 18 0 12 18
           (mkState init (fun _ => 0))
           (mkState init (fun a => if (a <? 3)%Z then 7 else 0)));
    try (unfold apart; lia); try reflexivity.
  - intros i Hi. unfold load. cbn [heap].
    destruct (Z.ltb_spec (0 + i) 3); [lia | reflexivity].
  - intros j Hj. unfold load. cbn [heap].
    destruct (Z.ltb_spec (12 + j) 3); [lia | reflexivity].
Defined.

End HexacopterFacts.

(** ** The size checks of the other overloads *)

Section HexacopterSizes.

Import Hexacopter.

(** X15: the size-checked [eval_phix] and [eval_hu] return normally
    exactly at the documented sizes ([nx], [nx] and [nx], [nuc], [nx],
    [nuc]), with the state the raw-pointer function leaves; at any other
    sizes they throw [std::invalid_argument] with the state untouched. *)
Theorem hexacopter_checked_phix_hu_sizes (t : Scalar) (s : state OCP) :
  (forall x phix : Vec,
     ((size x = nx /\ size phix = nx)%Z ->
      Checked.eval_phix t x phix s =
      Normal (eval_phix t (data x) (data phix) s))
     /\ (~ (size x = nx /\ size phix = nx)%Z ->
         exists what,
           Checked.eval_phix t x phix s = Thrown (invalid_argument what) s))
  /\ (forall x uc lmd hu : Vec,
        ((size x = nx /\ size uc = nuc /\ size lmd = nx /\ size hu = nuc)%Z ->
         Checked.eval_hu t x uc lmd hu s =
         Normal (eval_hu t (data x) (data uc) (data lmd) (data hu) s))
        /\ (~ (size x = nx /\ size uc = nuc /\ size lmd = nx
               /\ size hu = nuc)%Z ->
            exists what,
              Checked.eval_hu t x uc lmd hu s =
              Thrown (invalid_argument what) s)).
Proof.
  split.
  - intros x phix. unfold Checked.eval_phix.
    destruct (Z.eqb_spec (size x) nx); cbn [negb];
      [| split; [tauto | intros _; eexists; reflexivity]].
    destruct (Z.eqb_spec (size phix) nx); cbn [negb];
      [| split; [tauto | intros _; eexists; reflexivity]].
    split; [reflexivity | tauto].
  - intros x uc lmd hu. unfold Checked.eval_hu.
    destruct (Z.eqb_spec (size x) nx); cbn [negb];
      [| split; [tauto | intros _; eexists; reflexivity]].
    destruct (Z.eqb_spec (size uc) nuc); cbn [negb];
      [| split; [tauto | intros _; eexists; reflexivity]].
    destruct (Z.eqb_spec (size lmd) nx); cbn [negb];
      [| split; [tauto | intros _; eexists; reflexivity]].
    destruct (Z.eqb_spec (size hu) nuc); cbn [negb];
      [| split; [tauto | intros _; eexists; reflexivity]].
    split; [reflexivity | tauto].
Qed.

(** X16: whenever the size-checked [eval_hx] returns normally, [hx] has 6
    entries, and the call it made to the raw-pointer [eval_hx] assigns
    [hx[i]] for every [i] from 0 to 11. *)
Theorem hexacopter_eval_hx_assigns_past_size
    (t : Scalar) (x uc lmd hx : Vec) (s s' : state OCP)
    (Hret : Checked.eval_hx t x uc lmd hx s = Normal s') :
  size hx = 6%Z
  /\ s' = eval_hx t (data x) (data uc) (data lmd) (data hx) s
  /\ forall i : Z, (0 <= i < 12)%Z ->
       In i (map fst (eval_hx_body (self s) t (data x) (data uc) (data lmd)
                                   (heap s))).
Proof.
  unfold Checked.eval_hx in Hret.
  destruct (Z.eqb_spec (size x) nx); cbn [negb] in Hret; [| discriminate].
  destruct (Z.eqb_spec (size uc) nuc); cbn [negb] in Hret; [| discriminate].
  destruct (Z.eqb_spec (size lmd) nx); cbn [negb] in Hret; [| discriminate].
  destruct (Z.eqb_spec (size hx) nuc) as [Hh | Hh]; cbn [negb] in Hret;
    [| discriminate].
  injection Hret as <-.
  split; [exact Hh |]. split; [reflexivity |].
  unfold eval_hx_body. body_covers.
Qed.

Lemma hexacopter_eval_hx_assigns_past_size_witness :
  size (mkVec 30 6) = 6%Z
  /\ eval_hx 0 0 12 18 30 (mkState init (fun _ => 0)) =
     eval_hx 0 (data (mkVec 0 12)) (data (mkVec 12 6)) (data (mkVec 18 12))
             (data (mkVec 30 6)) (mkState init (fun _ => 0))
  /\ forall i : Z, (0 <= i < 12)%Z ->
       In i (map fst (eval_hx_body (self (mkState init (fun _ => 0))) 0
                        (data (mkVec 0 12)) (data (mkVec 12 6))
                        (data (mkVec 18 12))
                        (heap (mkState init (fun _ => 0))))).
Proof.
  apply (hexacopter_eval_hx_assigns_past_size 0 (mkVec 0 12) (mkVec 12 6)
           (mkVec 18 12) (mkVec 30 6) (mkState init (fun _ => 0))).
  reflexivity.
Defined.

End HexacopterSizes.

Section CartpoleCostate.

Import Cartpole.

(** X17: with a zero costate and the stage weights equal to the terminal
    weights (as they are by default), the cart-pole [eval_hx] writes what
    [eval_phix] writes (no denominator being zero). *)
Theorem cartpole_eval_hx_zero_costate
    (t : Scalar) (x u lmd out : ptr) (s : state OCP)
    (Hx : apart out 4 x 4) (Hu : apart out 4 u 1) (Hl : apart out 4 lmd 4)
    (Hden : m_c (self s) + m_p (self s) * sin (load (heap s) x 1) ^ 2 <> 0)
    (Hlen : l (self s) <> 0)
    (Hq : q (self s) = q_terminal (self s))
    (Hzero : forall i : Z, (0 <= i < 4)%Z -> load (heap s) lmd i = 0) :
  same_contents (heap (eval_hx t x u lmd out s)) out
                (heap (eval_phix t x out s)) out 4.
Proof.
  intros i Hi.
  rewrite cartpole_eval_hx_at, cartpole_eval_phix_at by assumption.
  cases_below i; out_value eval_hx_body; out_value eval_phix_body;
    rewrite Hq; known_loads (heap s) lmd Hzero; unfold Scalar in *; field;
    repeat split; assumption.
Qed.

Lemma cartpole_eval_hx_zero_costate_witness :
  same_contents (heap (eval_hx 0 0 4 5 10 (mkState init (fun _ => 0)))) 10
                (heap (eval_phix 0 0 10 (mkState init (fun _ => 0)))) 10 4.
Proof.
  apply (cartpole_eval_hx_zero_costate 0 0 4 5 10
           (mkState init (fun _ => 0)));
    try (unfold apart; lia); try reflexivity.
  - cbn [self heap init m_c m_p].
    pose proof (pow2_ge_0 (sin (load (fun _ => 0) 0 1))). lra.
  - cbn [self init l]. lra.
Defined.

End CartpoleCostate.

(** * Dynamics and gradients, entry by entry *)

Section HexacopterGradients.

Import Hexacopter.

(** X18: the hexacopter dynamics are affine in each rotor thrust and in
    each state entry other than the three attitude angles: raising one of
    them by [c] changes every entry of [eval_f] by [c] times the change
    under a unit raise (mass and inertias not being zero). *)
Theorem hexacopter_eval_f_affine
    (t : Scalar) (x u dx : ptr) (s : state OCP) (c : Scalar)
    (Hdx : apart dx 12 x 12) (Hdu : apart dx 12 u 6) (Hux : apart u 6 x 12)
    (Hm : m (self s) <> 0)
    (HI : Ixx (self s) <> 0 /\ Iyy (self s) <> 0 /\ Izz (self s) <> 0) :
  (forall j : Z, (0 <= j < 6)%Z -> forall i : Z, (0 <= i < 12)%Z ->
     load (heap (eval_f t x u dx (bump_by u j c s))) dx i =
     load (heap (eval_f t x u dx s)) dx i
     + c * (load (heap (eval_f t x u dx (bump u j s))) dx i
            - load (heap (eval_f t x u dx s)) dx i))
  /\ (forall k : Z, (0 <= k < 3 \/ 6 <= k < 12)%Z ->
      forall i : Z, (0 <= i < 12)%Z ->
        load (heap (eval_f t x u dx (bump_by x k c s))) dx i =
        load (heap (eval_f t x u dx s)) dx i
        + c * (load (heap (eval_f t x u dx (bump x k s))) dx i
               - load (heap (eval_f t x u dx s)) dx i)).
Proof.
  destruct HI as (HIx & HIy & HIz).
  split.
  - intros j Hj i Hi. rewrite !hexacopter_eval_f_at by assumption.
    unfold bump, bump_by. cbn [heap self]. unfold apart in *.
    cases_below j; cases_below i;
      out_nth (hexacopter_eval_f_body_nodup _ _ _ _ _); mem_norm;
      scalar_field.
  - intros k Hk i Hi. rewrite !hexacopter_eval_f_at by assumption.
    unfold bump, bump_by. cbn [heap self]. unfold apart in *.
    destruct Hk as [Hk | Hk]; cases_below k; cases_below i;
      out_nth (hexacopter_eval_f_body_nodup _ _ _ _ _); mem_norm;
      scalar_field.
Qed.

Lemma hexacopter_eval_f_affine_witness :
  (forall j : Z, (0 <= j < 6)%Z -> forall i : Z, (0 <= i < 12)%Z ->
     load (heap (eval_f 0 0 12 18 (bump_by 12 j 3 (mkState init (fun _ => 1)))))
          18 i =
     load (heap (eval_f 0 0 12 18 (mkState init (fun _ => 1)))) 18 i
     + 3 * (load (heap (eval_f 0 0 12 18 (bump 12 j (mkState init (fun _ => 1)))))
                 18 i
            - load (heap (eval_f 0 0 12 18 (mkState init (fun _ => 1)))) 18 i))
  /\ (forall k : Z, (0 <= k < 3 \/ 6 <= k < 12)%Z ->
      forall i : Z, (0 <= i < 12)%Z ->
        load (heap (eval_f 0 0 12 18
                      (bump_by 0 k 3 (mkState init (fun _ => 1))))) 18 i =
        load (heap (eval_f 0 0 12 18 (mkState init (fun _ => 1)))) 18 i
        + 3 * (load (heap (eval_f 0 0 12 18
                             (bump 0 k (mkState init (fun _ => 1))))) 18 i
               - load (heap (eval_f 0 0 12 18 (mkState init (fun _ => 1))))
                      18 i)).
Proof.
  apply (hexacopter_eval_f_affine 0 0 12 18 (mkState init (fun _ => 1)) 3);
    try (unfold apart; lia).
  - cbn [self init m]. lra.
  - cbn [self init Ixx Iyy Izz]. repeat split; lra.
Defined.

(** X19: [eval_hx] is the state gradient of a Hamiltonian built on
    [eval_f], in every state entry [k] other than the attitude angles
    (where the dynamics are affine): [hx[k]] is [q[k]] times the gap to the
    reference plus the costate times the change of [eval_f] under a unit
    raise of [x[k]]. *)
Theorem hexacopter_eval_hx_matches_eval_f
    (t : Scalar) (x u lmd dx hx : ptr) (s : state OCP)
    (Hdx : apart dx 12 x 12) (Hdu : apart dx 12 u 6)
    (Hhx : apart hx 12 x 12) (Hhu : apart hx 12 u 6)
    (Hhl : apart hx 12 lmd 12) (Hux : apart u 6 x 12)
    (Hm : m (self s) <> 0)
    (HI : Ixx (self s) <> 0 /\ Iyy (self s) <> 0 /\ Izz (self s) <> 0) :
  forall k : Z, (0 <= k < 3 \/ 6 <= k < 12)%Z ->
    load (heap (eval_hx t x u lmd hx s)) hx k =
    get (q (self s)) (Z.to_nat k)
    * (load (heap s) x k - hexacopter_reference (z_ref (self s)) t k)
    + sum_to 12 (fun i =>
                   load (heap s) lmd i
                   * (load (heap (eval_f t x u dx (bump x k s))) dx i
                      - load (heap (eval_f t x u dx s)) dx i)).
Proof.
  intros k Hk. destruct HI as (HIx & HIy & HIz).
  rewrite hexacopter_eval_hx_at by assumption.
  cbn [sum_to Z.of_nat Pos.of_succ_nat Pos.succ].
  rewrite !hexacopter_eval_f_at by assumption.
  unfold bump. cbn [heap self]. unfold apart in *.
  destruct Hk as [Hk | Hk]; cases_below k; nat_index;
    out_nth (hexacopter_eval_hx_body_nodup _ _ _ _ _ _);
    out_nth (hexacopter_eval_f_body_nodup _ _ _ _ _); mem_norm;
    unfold hexacopter_reference; scalar_field.
Qed.

Lemma hexacopter_eval_hx_matches_eval_f_witness :
  load (heap (eval_hx 0 0 12 18 42 (mkState init (fun _ => 1)))) 42 9 =
  get (q init) (Z.to_nat 9)
  * (1 - hexacopter_reference (z_ref init) 0 9)
  + sum_to 12 (fun i =>
                 1 * (load (heap (eval_f 0 0 12 30
                                    (bump 0 9 (mkState init (fun _ => 1)))))
                           30 i
                      - load (heap (eval_f 0 0 12 30
                                      (mkState init (fun _ => 1)))) 30 i)).
Proof.
  apply (hexacopter_eval_hx_matches_eval_f 0 0 12 18 30 42
           (mkState init (fun _ => 1)));
    try (unfold apart; lia).
  - cbn [self init m]. lra.
  - cbn [self init Ixx Iyy Izz]. repeat split; lra.
Defined.

End HexacopterGradients.

Section CartpoleGradients.

Import Cartpole.

Lemma cartpole_eval_f_body_nodup o t x u m0 :
  NoDup (map fst (eval_f_body o t x u m0)).
Proof. unfold eval_f_body. body_nodup. Qed.

Lemma cartpole_eval_hx_body_nodup o t x u lmd m0 :
  NoDup (map fst (eval_hx_body o t x u lmd m0)).
Proof. unfold eval_hx_body. body_nodup. Qed.

(** X20: the cart-pole dynamics are affine in the force and in the state
    entries other than the pole angle: raising one of them by [c] changes
    every entry of [eval_f] by [c] times the change under a unit raise
    (no denominator being zero). *)
Theorem cartpole_eval_f_affine
    (t : Scalar) (x u dx : ptr) (s : state OCP) (c : Scalar)
    (Hdx : apart dx 4 x 4) (Hdu : apart dx 4 u 1) (Hux : apart u 1 x 4)
    (Hden : m_c (self s) + m_p (self s) * sin (load (heap s) x 1) ^ 2 <> 0)
    (Hlen : l (self s) <> 0) :
  (forall i : Z, (0 <= i < 4)%Z ->
     load (heap (eval_f t x u dx (bump_by u 0 c s))) dx i =
     load (heap (eval_f t x u dx s)) dx i
     + c * (load (heap (eval_f t x u dx (bump u 0 s))) dx i
            - load (heap (eval_f t x u dx s)) dx i))
  /\ (forall k : Z, (k = 0 \/ 2 <= k < 4)%Z ->
      forall i : Z, (0 <= i < 4)%Z ->
        load (heap (eval_f t x u dx (bump_by x k c s))) dx i =
        load (heap (eval_f t x u dx s)) dx i
        + c * (load (heap (eval_f t x u dx (bump x k s))) dx i
               - load (heap (eval_f t x u dx s)) dx i)).
Proof.
  split.
  - intros i Hi. rewrite !cartpole_eval_f_at by assumption.
    unfold bump, bump_by. cbn [heap self]. unfold apart in *.
    cases_below i; out_nth (cartpole_eval_f_body_nodup _ _ _ _ _); mem_norm;
      scalar_field.
  - intros k Hk i Hi. rewrite !cartpole_eval_f_at by assumption.
    unfold bump, bump_by. cbn [heap self]. unfold apart in *.
    destruct Hk as [-> | Hk]; [| cases_below k]; cases_below i;
      out_nth (cartpole_eval_f_body_nodup _ _ _ _ _); mem_norm;
      scalar_field.
Qed.

Lemma cartpole_eval_f_affine_witness :
  (forall i : Z, (0 <= i < 4)%Z ->
     load (heap (eval_f 0 0 4 5 (bump_by 4 0 3 (mkState init (fun _ => 1)))))
          5 i =
     load (heap (eval_f 0 0 4 5 (mkState init (fun _ => 1)))) 5 i
     + 3 * (load (heap (eval_f 0 0 4 5 (bump 4 0 (mkState init (fun _ => 1)))))
                 5 i
            - load (heap (eval_f 0 0 4 5 (mkState init (fun _ => 1)))) 5 i))
  /\ (forall k : Z, (k = 0 \/ 2 <= k < 4)%Z ->
      forall i : Z, (0 <= i < 4)%Z ->
        load (heap (eval_f 0 0 4 5
                      (bump_by 0 k 3 (mkState init (fun _ => 1))))) 5 i =
        load (heap (eval_f 0 0 4 5 (mkState init (fun _ => 1)))) 5 i
        + 3 * (load (heap (eval_f 0 0 4 5
                             (bump 0 k (mkState init (fun _ => 1))))) 5 i
               - load (heap (eval_f 0 0 4 5 (mkState init (fun _ => 1))))
                      5 i)).
Proof.
  apply (cartpole_eval_f_affine 0 0 4 5 (mkState init (fun _ => 1)) 3);
    try (unfold apart; lia).
  - cbn [self heap init m_c m_p].
    pose proof (pow2_ge_0 (sin (load (fun _ => 1) 0 1))). lra.
  - cbn [self init l]. lra.
Defined.

(** X21: the cart-pole [eval_hx] is the state gradient of a Hamiltonian
    built on [eval_f], in every state entry [k] other than the pole angle:
    [hx[k]] is [q[k]] times the gap to [x_ref[k]] plus the costate times
    the change of [eval_f] under a unit raise of [x[k]]. *)
Theorem cartpole_eval_hx_matches_eval_f
    (t : Scalar) (x u lmd dx hx : ptr) (s : state OCP)
    (Hdx : apart dx 4 x 4) (Hdu : apart dx 4 u 1)
    (Hhx : apart hx 4 x 4) (Hhu : apart hx 4 u 1) (Hhl : apart hx 4 lmd 4)
    (Hux : apart u 1 x 4)
    (Hden : m_c (self s) + m_p (self s) * sin (load (heap s) x 1) ^ 2 <> 0)
    (Hlen : l (self s) <> 0) :
  forall k : Z, (k = 0 \/ 2 <= k < 4)%Z ->
    load (heap (eval_hx t x u lmd hx s)) hx k =
    get (q (self s)) (Z.to_nat k)
    * (load (heap s) x k - get (x_ref (self s)) (Z.to_nat k))
    + sum_to 4 (fun i =>
                  load (heap s) lmd i
                  * (load (heap (eval_f t x u dx (bump x k s))) dx i
                     - load (heap (eval_f t x u dx s)) dx i)).
Proof.
  intros k Hk.
  rewrite cartpole_eval_hx_at by assumption.
  cbn [sum_to Z.of_nat Pos.of_succ_nat Pos.succ].
  rewrite !cartpole_eval_f_at by assumption.
  unfold bump. cbn [heap self]. unfold apart in *.
  destruct Hk as [-> | Hk]; [| cases_below k]; nat_index;
    out_nth (cartpole_eval_hx_body_nodup _ _ _ _ _ _);
    out_nth (cartpole_eval_f_body_nodup _ _ _ _ _); mem_norm;
    scalar_field.
Qed.

Lemma cartpole_eval_hx_matches_eval_f_witness :
  load (heap (eval_hx 0 0 4 5 20 (mkState init (fun _ => 1)))) 20 2 =
  get (q init) (Z.to_nat 2) * (1 - get (x_ref init) (Z.to_nat 2))
  + sum_to 4 (fun i =>
                1 * (load (heap (eval_f 0 0 4 10
                                   (bump 0 2 (mkState init (fun _ => 1)))))
                          10 i
                     - load (heap (eval_f 0 0 4 10
                                     (mkState init (fun _ => 1)))) 10 i)).
Proof.
  apply (cartpole_eval_hx_matches_eval_f 0 0 4 5 10 20
           (mkState init (fun _ => 1)));
    try (unfold apart; lia).
  - cbn [self heap init m_c m_p].
    pose proof (pow2_ge_0 (sin (load (fun _ => 1) 0 1))). lra.
  - cbn [self init l]. lra.
Defined.

End CartpoleGradients.
